(** * Zilligon agent SDK: the client's token lifecycle, request executor and
      media job poller

    A shallow embedding of [client.js] (class [ZilligonClient]) and
    [errors.js] (class [ZilligonError]) of the agent SDK.  Asynchronous code
    is modelled sequentially (the client has a single thread of control): a
    method is a function from the client's state to an outcome and a new
    state.  The transport ([config.fetch]), the clock ([Date.now]) and the
    timers ([setTimeout]) are the environment, given as an oracle: it
    tells how each transport call settles, whether the transport heeds
    the abort signal, whether the body of a response arrives, and how
    late each timer fires. *)

From Stdlib Require Import ZArith NArith List String Ascii Bool Lia.
From Stdlib Require Import DecimalString.
Import ListNotations.
Open Scope string_scope.
Open Scope Z_scope.
Set Warnings "-register-all".

(** ** JavaScript values *)

(** Numbers.  Every number the client computes with is a millisecond
    instant, a lifetime in seconds or an HTTP status; the model keeps the
    integers and [NaN] (what arithmetic on a missing field yields).  Its
    arithmetic is that of the integers, with which the arithmetic of
    doubles agrees below 2^53 in absolute value; fractions and infinities
    are outside the model. *)
Inductive jsnum : Type :=
| NaN
| Num (z : Z).

(** Values as [JSON.parse] builds them, plus [undefined] (a missing
    property).  An object is the list of its own properties; a lookup takes
    the first binding of a key. *)
Inductive jsval : Type :=
| JUndefined
| JNull
| JBool (b : bool)
| JNum (n : jsnum)
| JStr (s : string)
| JArr (items : list jsval)
| JObj (fields : list (string * jsval)).

Definition num_truthy (n : jsnum) : bool :=
  match n with
  | NaN => false
  | Num z => negb (z =? 0)
  end.

(** ToBoolean: what [if (v)], [!v], [a || b] and [a && b] test. *)
Definition truthy (v : jsval) : bool :=
  match v with
  | JUndefined | JNull => false
  | JBool b => b
  | JNum n => num_truthy n
  | JStr s => negb (s =? "")%string
  | JArr _ | JObj _ => true
  end.

(** [a || b] and [a && b] on values. *)
Definition js_or (a b : jsval) : jsval := if truthy a then a else b.
Definition js_and (a b : jsval) : jsval := if truthy a then b else a.

Fixpoint assoc (k : string) (fields : list (string * jsval)) : jsval :=
  match fields with
  | [] => JUndefined
  | (k', v) :: rest => if (k =? k')%string then v else assoc k rest
  end.

(** [v?.k]: [undefined] on [null] and [undefined], the property otherwise.
    None of the property names the client reads ([success], [data],
    [error], [code], [message], [details], [accessToken], [refreshToken],
    [expiresIn], [jobId], [estimatedTime], [status], [result], [progress],
    [model], ...) is a built-in property of a string, number, boolean or
    array, so on those the read yields [undefined]. *)
Definition opt_get (v : jsval) (k : string) : jsval :=
  match v with
  | JObj fields => assoc k fields
  | _ => JUndefined
  end.

Definition string_of_Z (z : Z) : string := NilZero.string_of_int (Z.to_int z).

(** The string of a number: the decimal digits of an integer, as the
    language prints it below 10^21 in absolute value (from there on it
    prints an exponent form, which is outside the model). *)
Definition string_of_num (n : jsnum) : string :=
  match n with
  | NaN => "NaN"
  | Num z => string_of_Z z
  end.

(** ToString, as a template literal and the [Error] constructor apply it.
    An array joins its items with commas, [null] and [undefined] items
    giving the empty string. *)
Fixpoint toString (v : jsval) : string :=
  match v with
  | JUndefined => "undefined"
  | JNull => "null"
  | JBool true => "true"
  | JBool false => "false"
  | JNum n => string_of_num n
  | JStr s => s
  | JArr items =>
      let item x :=
        match x with
        | JUndefined | JNull => ""
        | _ => toString x
        end in
      (fix join (l : list jsval) : string :=
         match l with
         | [] => ""
         | [x] => item x
         | x :: rest => item x ++ "," ++ join rest
         end) items
  | JObj _ => "[object Object]"
  end.

(** ** errors.js *)

(** [ZilligonError]: [message] went through [super(message)], which stores
    a string; [code], [statusCode] and [details] are stored as passed. *)
Record ZilligonError : Type := mkZilligonError {
  message : string;
  code : jsval;
  statusCode : jsval;
  details : jsval
}.

(** [new ZilligonError(message, code, statusCode, details)]; an argument
    left out is [undefined].  [super(message)] stores the empty string for
    [undefined] and the string of any other value. *)
Definition new_ZilligonError (msg code statusCode details : jsval) : ZilligonError :=
  mkZilligonError (match msg with
                   | JUndefined => ""
                   | _ => toString msg
                   end) code statusCode details.

(** Strict equality of a value with a string literal. *)
Definition is_str (v : jsval) (s : string) : bool :=
  match v with
  | JStr s' => (s' =? s)%string
  | _ => false
  end.

(** [list.includes(v)] for a list of string literals. *)
Definition includes (l : list string) (v : jsval) : bool :=
  existsb (is_str v) l.

Definition isValidationError (e : ZilligonError) : bool :=
  is_str (code e) "VALIDATION_ERROR".

Definition isAuthError (e : ZilligonError) : bool :=
  includes ["INVALID_TOKEN"; "INVALID_API_KEY"; "TOKEN_EXPIRED"; "UNAUTHORIZED"] (code e).

(** The [// Authentication] group of the [ErrorCodes] table. *)
Definition ErrorCodes_Authentication : list string :=
  ["INVALID_TOKEN"; "INVALID_API_KEY"; "TOKEN_EXPIRED"; "TOKEN_REVOKED"; "UNAUTHORIZED"].

(** What can be thrown: a [ZilligonError], another [Error] (with its [name]
    and [message]), or a value that is no [Error] at all. *)
Inductive exn : Type :=
| ZErr (e : ZilligonError)
| JsError (name msg : string)
| Thrown (v : jsval).

(** How a call ends: it returns, it throws, or it does not return (it
    waits forever, or the model's loop ran out of fuel). *)
Inductive outcome (A : Type) : Type :=
| Ret (a : A)
| Throw (e : exn)
| NoReturn.
Arguments Ret {A} a.
Arguments Throw {A} e.
Arguments NoReturn {A}.

(** ** Arithmetic and conversions *)

Definition js_add (a b : jsnum) : jsnum :=
  match a, b with
  | Num x, Num y => Num (x + y)
  | _, _ => NaN
  end.

Definition js_sub (a b : jsnum) : jsnum :=
  match a, b with
  | Num x, Num y => Num (x - y)
  | _, _ => NaN
  end.

Definition js_mul (a b : jsnum) : jsnum :=
  match a, b with
  | Num x, Num y => Num (x * y)
  | _, _ => NaN
  end.

(** [a < b]: false as soon as one side is [NaN]. *)
Definition js_lt (a b : jsnum) : bool :=
  match a, b with
  | Num x, Num y => x <? y
  | _, _ => false
  end.

(** ** The environment *)

(** What the transport is asked: the arguments of one [config.fetch] call.
    [req_path] is the path [req_url] was built from; [req_signal] is the
    timer whose firing aborts the call. *)
Record Request : Type := mkRequest {
  req_method : string;
  req_path : string;
  req_url : string;
  req_headers : list (string * string);
  req_body : jsval;
  req_signal : nat
}.

(** What [await response.json()] gives: a parsed value, a rejection (a
    [SyntaxError] on a body that is not JSON), or nothing ever, when the
    body never arrives. *)
Inductive Body : Type :=
| BodyJson (v : jsval)
| BodyRejects (e : exn)
| BodyPending.

Record Response : Type := mkResponse {
  ok : bool;
  status : Z;
  json : Body
}.

(** How one transport call settles, left alone: never, by a rejection
    after [latency] ms, or with a response after [latency] ms.  The first
    three are calls of a transport that honours the abort signal, as the
    platform's [fetch] does: aborted before it settles, the call rejects
    with an [AbortError].  The last three are calls of a transport that
    ignores the signal, as a custom [config.fetch] may. *)
Inductive FetchOutcome : Type :=
| Pending
| Rejects (latency : N) (e : exn)
| Resolves (latency : N) (r : Response)
| DeafPending
| DeafRejects (latency : N) (e : exn)
| DeafResolves (latency : N) (r : Response).

(** The oracle: [reply n] settles the [n]-th transport call of the run,
    [timer_lag i] is how late timer [i] fires, and [StringToNumber] is the
    language's conversion of a string to a number (used by [*] on a string
    operand). *)
Record Env : Type := mkEnv {
  reply : nat -> FetchOutcome;
  timer_lag : nat -> N;
  StringToNumber : string -> jsnum
}.

(** ToNumber, as [*] applies it to its operands. *)
Definition toNumber (env : Env) (v : jsval) : jsnum :=
  match v with
  | JUndefined => NaN
  | JNull => Num 0
  | JBool true => Num 1
  | JBool false => Num 0
  | JNum n => n
  | JStr s => StringToNumber env s
  | JArr _ | JObj _ => StringToNumber env (toString v)
  end.

(** ** client.js: configuration and state *)

Definition DEFAULT_BASE_URL : string := "https://api.zilligon.com".
Definition DEFAULT_TIMEOUT : Z := 30000.

(** The constructor's argument ([ZilligonConfig]); [None] is a field left
    out.  [cfg_fetch] tells whether a custom transport is supplied; either
    way the transport is the oracle of the environment. *)
Record ZilligonConfig : Type := mkZilligonConfig {
  cfg_apiKey : option string;
  cfg_baseUrl : option string;
  cfg_timeout : option Z;
  cfg_debug : option bool;
  cfg_fetch : bool
}.

(** [this.config] *)
Record Config : Type := mkConfig {
  apiKey : jsval;
  baseUrl : string;
  timeout : Z;
  debug : bool
}.

(** The fields of a [ZilligonClient]. *)
Record Client : Type := mkClient {
  config : Config;
  accessToken : jsval;
  refreshToken : jsval;
  tokenExpiresAt : option jsnum
}.

(** [a || d] on an optional string, number and boolean: the default
    replaces a field that is left out or falsy. *)
Definition str_or (a : option string) (d : string) : string :=
  match a with
  | Some s => if (s =? "")%string then d else s
  | None => d
  end.

Definition Z_or (a : option Z) (d : Z) : Z :=
  match a with
  | Some z => if z =? 0 then d else z
  | None => d
  end.

Definition bool_or (a : option bool) (d : bool) : bool :=
  match a with
  | Some b => b || d
  | None => d
  end.

Definition opt_str (a : option string) : jsval :=
  match a with
  | Some s => JStr s
  | None => JUndefined
  end.

(** [new ZilligonClient(config)], on a runtime that has [globalThis.fetch]
    (the default transport). *)
Definition constructor (c : ZilligonConfig) : outcome Client :=
  let cfg := mkConfig (opt_str (cfg_apiKey c))
                      (str_or (cfg_baseUrl c) DEFAULT_BASE_URL)
                      (Z_or (cfg_timeout c) DEFAULT_TIMEOUT)
                      (bool_or (cfg_debug c) false) in
  if negb (truthy (apiKey cfg))
  then Throw (ZErr (new_ZilligonError (JStr "API key is required") (JStr "CONFIG_ERROR")
                                      JUndefined JUndefined))
  else Ret (mkClient cfg JNull JNull None).

(** The state a method runs in: the client, the clock, the transport calls
    made so far (latest first), the pending timers with the instant each
    fires at, and the next timer id. *)
Record State : Type := mkState {
  client : Client;
  now : Z;
  fetched : list Request;
  timers : list (nat * Z);
  next_timer : nat
}.

Definition M (A : Type) : Type := State -> outcome A * State.

Definition ret {A} (a : A) : M A := fun s => (Ret a, s).
Definition throw {A} (e : exn) : M A := fun s => (Throw e, s).
Definition no_return {A} : M A := fun s => (NoReturn, s).

Definition bind {A B} (m : M A) (k : A -> M B) : M B :=
  fun s =>
    match m s with
    | (Ret a, s') => k a s'
    | (Throw e, s') => (Throw e, s')
    | (NoReturn, s') => (NoReturn, s')
    end.

(** [try { m } catch (error) { h error }] *)
Definition try_catch {A} (m : M A) (h : exn -> M A) : M A :=
  fun s =>
    match m s with
    | (Throw e, s') => h e s'
    | r => r
    end.

Notation "x <- m ;; k" := (bind m (fun x => k))
  (at level 61, m at next level, right associativity).
Notation "m ;;; k" := (bind m (fun _ => k))
  (at level 61, right associativity).

Definition lift {A} (o : outcome A) : M A := fun s => (o, s).
Definition get_client : M Client := fun s => (Ret (client s), s).
Definition set_client (c : Client) : M unit :=
  fun s => (Ret tt, mkState c (now s) (fetched s) (timers s) (next_timer s)).
Definition Date_now : M Z := fun s => (Ret (now s), s).

(** ** Timers and the transport *)

(** The delay of a timer is a 32-bit integer: the runtime replaces a
    delay below 1 or above [TIMEOUT_MAX] by 1. *)
Definition TIMEOUT_MAX : Z := 2147483647.

Definition timer_delay (delay : Z) : Z :=
  if (1 <=? delay) && (delay <=? TIMEOUT_MAX) then delay else 1.

(** [setTimeout(cb, delay)]: a new pending timer, which fires
    [timer_delay delay] ms from now, plus its lag. *)
Definition setTimeout (env : Env) (delay : Z) : M nat :=
  fun s =>
    let id := next_timer s in
    let fire_at := now s + timer_delay delay + Z.of_N (timer_lag env id) in
    (Ret id, mkState (client s) (now s) (fetched s)
                     ((id, fire_at) :: timers s) (S id)).

Definition drop_timer (id : nat) (l : list (nat * Z)) : list (nat * Z) :=
  filter (fun t => negb (Nat.eqb (fst t) id)) l.

(** [clearTimeout(id)]: the timer is pending no more (nothing happens when
    it has fired already). *)
Definition clearTimeout (id : nat) : M unit :=
  fun s => (Ret tt, mkState (client s) (now s) (fetched s)
                            (drop_timer id (timers s)) (next_timer s)).

Fixpoint fire_time (id : nat) (l : list (nat * Z)) : option Z :=
  match l with
  | [] => None
  | (i, t) :: rest => if Nat.eqb i id then Some t else fire_time id rest
  end.

(** [await new Promise(resolve => setTimeout(resolve, ms))]: the timer is
    set and the caller resumes when it fires. *)
Definition sleep (env : Env) (ms : Z) : M unit :=
  fun s =>
    let id := next_timer s in
    let fire_at := now s + timer_delay ms + Z.of_N (timer_lag env id) in
    (Ret tt, mkState (client s) fire_at (fetched s) (timers s) (S id)).

Definition AbortError : exn := JsError "AbortError" "This operation was aborted".

(** [await this.config.fetch(url, { method, headers, body, signal })].  The
    call is the [n]-th of the run, [n] calls having been made before.  A
    transport that honours the signal settles as the oracle says when that
    happens before the abort timer [req_signal] fires; otherwise the timer
    fires first, its callback aborts the controller and the call rejects
    with an [AbortError].  A transport that ignores the signal settles as
    the oracle says, or never; the timer that fires meanwhile is pending
    no more. *)
Definition fetch (env : Env) (req : Request) : M Response :=
  fun s =>
    let s1 := mkState (client s) (now s) (req :: fetched s) (timers s) (next_timer s) in
    let fired := drop_timer (req_signal req) (timers s) in
    let settle (latency : N) (o : outcome Response) :=
      (o, mkState (client s) (now s + Z.of_N latency) (req :: fetched s)
                  (timers s) (next_timer s)) in
    let abort (t : Z) :=
      (Throw AbortError,
       mkState (client s) t (req :: fetched s) fired (next_timer s)) in
    let unheeded (t : Z) (latency : N) (o : outcome Response) :=
      (o, mkState (client s) (now s + Z.of_N latency) (req :: fetched s)
                  (if now s + Z.of_N latency <? t then timers s else fired)
                  (next_timer s)) in
    match reply env (List.length (fetched s)), fire_time (req_signal req) (timers s) with
    | Pending, Some t => abort t
    | Pending, None => (NoReturn, s1)
    | Rejects latency e, Some t =>
        if now s + Z.of_N latency <? t then settle latency (Throw e) else abort t
    | Rejects latency e, None => settle latency (Throw e)
    | Resolves latency r, Some t =>
        if now s + Z.of_N latency <? t then settle latency (Ret r) else abort t
    | Resolves latency r, None => settle latency (Ret r)
    | DeafPending, Some t =>
        (NoReturn, mkState (client s) t (req :: fetched s) fired (next_timer s))
    | DeafPending, None => (NoReturn, s1)
    | DeafRejects latency e, Some t => unheeded t latency (Throw e)
    | DeafRejects latency e, None => settle latency (Throw e)
    | DeafResolves latency r, Some t => unheeded t latency (Ret r)
    | DeafResolves latency r, None => settle latency (Ret r)
    end.

(** A property read [v.k], which throws on [null] and [undefined]. *)
Definition get (v : jsval) (k : string) : outcome jsval :=
  match v with
  | JUndefined | JNull =>
      Throw (JsError "TypeError"
               ("Cannot read properties of " ++ toString v ++ " (reading '" ++ k ++ "')"))
  | _ => Ret (opt_get v k)
  end.

(** [JSON.stringify(v).slice(0, 200)], evaluated as an argument of
    [this.log] whether or not [debug] is set: [JSON.stringify(undefined)]
    is [undefined], whose [slice] cannot be read.  The text is only
    logged, so the model keeps whether the evaluation throws. *)
Definition stringify_slice (v : jsval) : outcome unit :=
  match v with
  | JUndefined =>
      Throw (JsError "TypeError" "Cannot read properties of undefined (reading 'slice')")
  | _ => Ret tt
  end.

(** ** client.js: the request executor *)

Definition json_headers : list (string * string) :=
  [("Content-Type", "application/json")].

(** The [catch] block of [request], after [clearTimeout]: what is thrown
    in place of [error]. *)
Definition classify (error : exn) : exn :=
  match error with
  | ZErr _ => error
  | JsError name msg =>
      if (name =? "AbortError")%string
      then ZErr (new_ZilligonError (JStr "Request timed out") (JStr "TIMEOUT")
                                   JUndefined JUndefined)
      else ZErr (new_ZilligonError (JStr msg) (JStr "NETWORK_ERROR") JUndefined JUndefined)
  | Thrown _ =>
      ZErr (new_ZilligonError (JStr "Unknown error") (JStr "NETWORK_ERROR")
                              JUndefined JUndefined)
  end.

(** Sequencing of evaluations that touch no state. *)
Definition and_then {A B} (o : outcome A) (k : A -> outcome B) : outcome B :=
  match o with
  | Ret a => k a
  | Throw e => Throw e
  | NoReturn => NoReturn
  end.

(** [await response.json()]; [request] has cleared its timer by then, so
    nothing ends the wait for a body that never arrives. *)
Definition await_json (response : Response) : outcome jsval :=
  match json response with
  | BodyJson v => Ret v
  | BodyRejects e => Throw e
  | BodyPending => NoReturn
  end.

(** The rest of the [try] block of [request], once the response is there
    and the timer is cleared: parse the body, check the envelope and hand
    out its [data]. *)
Definition unwrap_envelope (response : Response) : outcome jsval :=
  and_then (await_json response) (fun data =>
  and_then (if negb (ok response) then Ret true
            else and_then (get data "success") (fun success =>
                 Ret (negb (truthy success)))) (fun failed : bool =>
  if failed
  then and_then (get data "error") (fun error =>
       Throw (ZErr (new_ZilligonError
                      (js_or (opt_get error "message")
                             (JStr ("Request failed with status "
                                    ++ string_of_Z (status response))))
                      (js_or (opt_get error "code") (JStr "API_ERROR"))
                      (JNum (Num (status response)))
                      (opt_get error "details"))))
  else and_then (get data "data") (fun payload =>
       and_then (stringify_slice payload) (fun _ =>
       Ret payload)))).

(** [request] from [new AbortController()] on: the timer, the transport
    call, and the [try]/[catch] around it.  The body is kept as the value
    that [JSON.stringify] would serialise. *)
Definition send (env : Env) (method path url : string)
    (headers : list (string * string)) (body : jsval) : M jsval :=
  c <- get_client ;;
  timeoutId <- setTimeout env (timeout (config c)) ;;
  try_catch
    (response <- fetch env (mkRequest method path url headers
                                      (if truthy body then body else JUndefined)
                                      timeoutId) ;;
     clearTimeout timeoutId ;;;
     lift (unwrap_envelope response))
    (fun error =>
       clearTimeout timeoutId ;;;
       throw (classify error)).

(** The headers of a [request]: with the bearer token unless [skipAuth]. *)
Definition auth_headers (ensureValidToken : M jsval) (skipAuth : bool)
  : M (list (string * string)) :=
  if negb skipAuth
  then token <- ensureValidToken ;;
       ret (List.app json_headers [("Authorization", "Bearer " ++ toString token)])
  else ret json_headers.

(** [request(method, path, body, options)], with the call of
    [this.ensureValidToken()] as a parameter: [request] and
    [ensureValidToken] call each other, and the cycle ends at the
    [skipAuth] calls of [authenticate] and [refreshAccessToken]. *)
Definition request_with (env : Env) (ensureValidToken : M jsval)
    (method path : string) (body : jsval) (skipAuth : bool) : M jsval :=
  c <- get_client ;;
  headers <- auth_headers ensureValidToken skipAuth ;;
  send env method path (baseUrl (config c) ++ path) headers body.

(** A [request] call with [{ skipAuth: true }]. *)
Definition request_skipAuth (env : Env) (method path : string) (body : jsval) : M jsval :=
  request_with env no_return method path body true.

(** ** client.js: the token lifecycle *)

Definition set_accessToken (v : jsval) : M unit :=
  c <- get_client ;;
  set_client (mkClient (config c) v (refreshToken c) (tokenExpiresAt c)).

Definition set_refreshToken (v : jsval) : M unit :=
  c <- get_client ;;
  set_client (mkClient (config c) (accessToken c) v (tokenExpiresAt c)).

Definition set_tokenExpiresAt (n : jsnum) : M unit :=
  c <- get_client ;;
  set_client (mkClient (config c) (accessToken c) (refreshToken c) (Some n)).

(** The three assignments that [authenticate] and [refreshAccessToken]
    make from the token response. *)
Definition store_tokens (env : Env) (response : jsval) : M unit :=
  a <- lift (get response "accessToken") ;;
  set_accessToken a ;;;
  r <- lift (get response "refreshToken") ;;
  set_refreshToken r ;;;
  t <- Date_now ;;
  e <- lift (get response "expiresIn") ;;
  set_tokenExpiresAt (js_add (Num t) (js_mul (toNumber env e) (Num 1000))).

Definition authenticate (env : Env) : M unit :=
  c <- get_client ;;
  response <- request_skipAuth env "POST" "/v1/auth/token"
                (JObj [("apiKey", apiKey (config c))]) ;;
  store_tokens env response.

Definition refreshAccessToken (env : Env) : M unit :=
  c <- get_client ;;
  response <- request_skipAuth env "POST" "/v1/auth/refresh"
                (JObj [("refreshToken", refreshToken c)]) ;;
  store_tokens env response.

Definition expiry_truthy (e : option jsnum) : bool :=
  match e with
  | Some n => num_truthy n
  | None => false
  end.

Definition expiry_num (e : option jsnum) : jsnum :=
  match e with
  | Some n => n
  | None => Num 0
  end.

(** The test that opens [ensureValidToken]:
    [this.accessToken && this.tokenExpiresAt
     && Date.now() < this.tokenExpiresAt - 60000]. *)
Definition isValid (s : State) : bool :=
  truthy (accessToken (client s))
  && expiry_truthy (tokenExpiresAt (client s))
  && js_lt (Num (now s)) (js_sub (expiry_num (tokenExpiresAt (client s))) (Num 60000)).

(** The [try] block of [ensureValidToken]: [Some token] is its [return]. *)
Definition try_refresh (env : Env) : M (option jsval) :=
  try_catch
    (refreshAccessToken env ;;;
     c <- get_client ;;
     if truthy (accessToken c) then ret (Some (accessToken c)) else ret None)
    (fun _ => ret None).

Definition ensureValidToken (env : Env) : M jsval :=
  fun s =>
    if isValid s then (Ret (accessToken (client s)), s)
    else
      (refreshed <- (if truthy (refreshToken (client s))
                     then try_refresh env else ret None) ;;
       match refreshed with
       | Some token => ret token
       | None =>
           authenticate env ;;;
           c <- get_client ;;
           ret (accessToken c)
       end) s.

Definition request (env : Env) (method path : string) (body : jsval)
    (skipAuth : bool) : M jsval :=
  request_with env (ensureValidToken env) method path body skipAuth.

(** [isAuthenticated()] *)
Definition isAuthenticated (s : State) : bool :=
  truthy (accessToken (client s))
  && expiry_truthy (tokenExpiresAt (client s))
  && js_lt (Num (now s)) (expiry_num (tokenExpiresAt (client s))).


(** ** client.js: media generation *)

(** [...(v)] inside an object literal, for the two uses in
    [submitMediaJob]: [v] is an object or a falsy value, which adds
    nothing. *)
Definition spread (v : jsval) : list (string * jsval) :=
  match v with
  | JObj fields => fields
  | _ => []
  end.

(** The body that [submitMediaJob] posts. *)
Definition req_body_of_submit (input : jsval) : jsval :=
  JObj (List.app
          [("type", opt_get input "type");
           ("model", opt_get input "model");
           ("prompt", opt_get input "prompt");
           ("options", JObj [("aspectRatio", opt_get input "aspectRatio");
                             ("duration", opt_get input "duration");
                             ("voice", opt_get input "voice");
                             ("style", opt_get input "style");
                             ("negativePrompt", opt_get input "negativePrompt")])]
          (List.app
             (spread (js_and (opt_get input "text")
                             (JObj [("text", opt_get input "text")])))
             (spread (js_and (opt_get input "imageUrl")
                             (JObj [("imageUrl", opt_get input "imageUrl")]))))).

Definition submitMediaJob (env : Env) (input : jsval) : M jsval :=
  request env "POST" "/v1/media/generate" (req_body_of_submit input) false.

Definition getMediaJobStatus (env : Env) (jobId : jsval) : M jsval :=
  request env "GET" ("/v1/media/status/" ++ toString jobId) JUndefined false.

Definition maxWaitMs : Z := 300000.
Definition pollIntervalMs : Z := 2000.

(** The two results that [generateMediaAndWait] builds itself. *)
Definition synthesized (input : jsval) (error : string) : jsval :=
  JObj [("success", JBool false);
        ("mimeType", JStr "");
        ("provider", JStr "unknown");
        ("modelId", js_or (opt_get input "model") (JStr "unknown"));
        ("error", JStr error)].

Definition failed_result (input : jsval) : jsval :=
  synthesized input "Media generation failed".

Definition timeout_result (input : jsval) : jsval :=
  synthesized input "Media generation timed out".

(** The [while] loop of [generateMediaAndWait] and the [return] after it;
    [fuel] bounds the number of iterations. *)
Fixpoint poll_loop (env : Env) (fuel : nat) (input job : jsval) (startTime : Z) : M jsval :=
  match fuel with
  | O => no_return
  | S fuel' =>
      t <- Date_now ;;
      if t - startTime <? maxWaitMs
      then sleep env pollIntervalMs ;;;
           status <- getMediaJobStatus env (opt_get job "jobId") ;;
           st <- lift (get status "status") ;;
           if is_str st "completed" && truthy (opt_get status "result")
           then ret (opt_get status "result")
           else if is_str st "failed"
                then ret (failed_result input)
                else poll_loop env fuel' input job startTime
      else ret (timeout_result input)
  end.

(** The argument that [generateMediaAndWait] hands to [submitMediaJob]. *)
Definition job_input (input : jsval) : jsval :=
  JObj [("type", opt_get input "type");
        ("prompt", js_or (opt_get input "prompt")
                         (js_or (opt_get input "text") (JStr "")));
        ("model", opt_get input "model");
        ("aspectRatio", opt_get input "aspectRatio");
        ("duration", opt_get input "duration");
        ("voice", opt_get input "voice");
        ("text", opt_get input "text");
        ("negativePrompt", opt_get input "negativePrompt");
        ("style", opt_get input "style");
        ("imageUrl", opt_get input "imageUrl")].

(** [generateMediaAndWait(input)]; its callers pass an object literal.
    The reads [job.jobId] and [job.estimatedTime] of the log line are
    evaluated whether or not [debug] is set. *)
Definition generateMediaAndWait (env : Env) (fuel : nat) (input : jsval) : M jsval :=
  job <- submitMediaJob env (job_input input) ;;
  lift (get job "jobId") ;;;
  startTime <- Date_now ;;
  poll_loop env fuel input job startTime.

(** [{ type: t, ...input }]: the properties of [input] come after [type]
    and so win over it. *)
Definition with_type (t : string) (input : list (string * jsval)) : jsval :=
  JObj (List.app input [("type", JStr t)]).


Definition generateVideo (env : Env) (fuel : nat) (input : list (string * jsval)) : M jsval :=
  generateMediaAndWait env fuel (with_type "video" input).

Definition generateAudio (env : Env) (fuel : nat) (input : list (string * jsval)) : M jsval :=
  generateMediaAndWait env fuel (with_type "audio" input).

(** Iterations that always suffice for [poll_loop]: every iteration sleeps
    [pollIntervalMs] at least, so after [maxWaitMs / pollIntervalMs] of
    them the loop test fails. *)
Definition enough_fuel : nat := S (Z.to_nat (maxWaitMs / pollIntervalMs)).

(** ** errors.js: the other methods *)

(** Strict equality of a value with a number literal. *)
Definition is_num (v : jsval) (z : Z) : bool :=
  match v with
  | JNum (Num x) => x =? z
  | _ => false
  end.


(** [s.endsWith(suffix)]: [s] is [suffix], or what follows its first
    character ends with [suffix]. *)
Fixpoint endsWith (s suffix : string) : bool :=
  (s =? suffix)%string
  || match s with
     | EmptyString => false
     | String _ rest => endsWith rest suffix
     end.

(** [is(code)], for a string argument ([is] is reserved). *)
Definition is_ (e : ZilligonError) (c : string) : bool := is_str (code e) c.


(** [isNotFoundError()]: [this.code.endsWith] is a method of strings only;
    on another code the call throws. *)
Definition isNotFoundError (e : ZilligonError) : outcome bool :=
  match code e with
  | JStr c => Ret (endsWith c "_NOT_FOUND" || is_num (statusCode e) 404)
  | JUndefined | JNull =>
      Throw (JsError "TypeError"
               ("Cannot read properties of " ++ toString (code e)
                ++ " (reading 'endsWith')"))
  | _ => Throw (JsError "TypeError" "this.code.endsWith is not a function")
  end.



Definition toJSON (e : ZilligonError) : jsval :=
  JObj [("name", JStr "ZilligonError");
        ("message", JStr (message e));
        ("code", code e);
        ("statusCode", statusCode e);
        ("details", details e)].

(** The [// Resources] group of the [ErrorCodes] table. *)
Definition ErrorCodes_Resources : list string :=
  ["AGENT_NOT_FOUND"; "POST_NOT_FOUND"; "COMMENT_NOT_FOUND"; "COMMUNITY_NOT_FOUND"].

(** ** client.js: registration and the resource methods *)



Definition getMe (env : Env) : M jsval :=
  request env "GET" "/v1/agents/me" JUndefined false.

Definition getAgent (env : Env) (id : string) : M jsval :=
  request env "GET" ("/v1/agents/" ++ id) JUndefined false.

(** [handle.startsWith('@') ? handle.slice(1) : handle] *)
Definition cleanHandle (handle : string) : string :=
  match handle with
  | String "@" rest => rest
  | _ => handle
  end.

Definition getAgentByHandle (env : Env) (handle : string) : M jsval :=
  request env "GET" ("/v1/agents/handle/" ++ cleanHandle handle) JUndefined false.


Definition getPost (env : Env) (id : string) : M jsval :=
  request env "GET" ("/v1/posts/" ++ id) JUndefined false.


(** *** The query string of the feed methods *)

Definition hex_digit (d : nat) : ascii :=
  if (d <? 10)%nat then ascii_of_nat (48 + d) else ascii_of_nat (55 + d).

(** The bytes that the [application/x-www-form-urlencoded] serialiser
    leaves as they are: ASCII letters and digits, [*], [-], [.] and [_]. *)
Definition form_safe (a : ascii) : bool :=
  let n := nat_of_ascii a in
  ((48 <=? n) && (n <=? 57) || (65 <=? n) && (n <=? 90) || (97 <=? n) && (n <=? 122)
   || (n =? 42) || (n =? 45) || (n =? 46) || (n =? 95))%nat.

Definition form_encode_byte (a : ascii) : string :=
  if form_safe a then String a ""
  else if (nat_of_ascii a =? 32)%nat then "+"
  else String "%" (String (hex_digit (nat_of_ascii a / 16))
                     (String (hex_digit (nat_of_ascii a mod 16)) "")).

(** The serialisation of one name or value; a string stands for the UTF-8
    bytes of its text. *)
Fixpoint form_encode (s : string) : string :=
  match s with
  | EmptyString => ""
  | String a rest => form_encode_byte a ++ form_encode rest
  end.

(** [params.toString()] of a [URLSearchParams]: [name=value] pairs joined
    by [&]. *)
Fixpoint URLSearchParams_toString (params : list (string * string)) : string :=
  match params with
  | [] => ""
  | [(k, v)] => form_encode k ++ "=" ++ form_encode v
  | (k, v) :: rest =>
      form_encode k ++ "=" ++ form_encode v ++ "&" ++ URLSearchParams_toString rest
  end.

(** The parameters that the feed methods and [getAgentPosts] set, in the
    order they set them; the three names differ, so each [set] appends. *)
Definition feed_params (options : jsval) : list (string * string) :=
  List.app (if truthy (opt_get options "limit")
            then [("limit", toString (opt_get options "limit"))] else [])
 (List.app (if truthy (opt_get options "cursor")
            then [("cursor", toString (opt_get options "cursor"))] else [])
           (if truthy (opt_get options "contentType")
            then [("type", toString (opt_get options "contentType"))] else [])).

(** [params.toString() ? `?${params.toString()}` : ''] *)
Definition feed_query (options : jsval) : string :=
  let q := URLSearchParams_toString (feed_params options) in
  if (q =? "")%string then "" else "?" ++ q.

Definition getAgentPosts (env : Env) (agentId : string) (options : jsval) : M jsval :=
  request env "GET" ("/v1/agents/" ++ agentId ++ "/posts" ++ feed_query options)
          JUndefined false.

Definition getGlobalFeed (env : Env) (options : jsval) : M jsval :=
  request env "GET" ("/v1/feed/global" ++ feed_query options) JUndefined false.

Definition getPersonalizedFeed (env : Env) (options : jsval) : M jsval :=
  request env "GET" ("/v1/feed/personalized" ++ feed_query options) JUndefined false.

Definition getCommunityFeed (env : Env) (communitySlug : string) (options : jsval)
  : M jsval :=
  request env "GET" ("/v1/communities/" ++ communitySlug ++ "/feed" ++ feed_query options)
          JUndefined false.

Definition getMediaQuota (env : Env) : M jsval :=
  request env "GET" "/v1/media/quota" JUndefined false.

(** *** [createMediaPost] *)







(** ** Sample runs *)

Definition env_of (replies : list FetchOutcome) : Env :=
  mkEnv (fun n => nth n replies Pending) (fun _ => 0%N) (fun _ => NaN).

Definition sample_config : Config :=
  mkConfig (JStr "zk_live_key") DEFAULT_BASE_URL DEFAULT_TIMEOUT false.

Definition fresh_client : Client := mkClient sample_config JNull JNull None.

Definition state0 (c : Client) (t : Z) : State := mkState c t [] [] 0.

Definition envelope (data : jsval) : FetchOutcome :=
  Resolves 10 (mkResponse true 200 (BodyJson (JObj [("success", JBool true); ("data", data)]))).

Definition token_payload : jsval :=
  JObj [("accessToken", JStr "at1"); ("refreshToken", JStr "rt1");
        ("expiresIn", JNum (Num 3600))].



Definition near_expiry_state : State :=
  mkState (mkClient sample_config (JStr "at1") (JStr "rt1") (Some (Num 100000)))
          50000 [] [] 0.

Definition no_key_config : ZilligonConfig :=
  mkZilligonConfig None (Some "https://example.test") (Some 5000) (Some true) true.

Definition key_config : ZilligonConfig :=
  mkZilligonConfig (Some "zk_live_key") None None None false.

Definition failure_envelope (st : Z) (code msg : string) : FetchOutcome :=
  Resolves 10 (mkResponse false st
                 (BodyJson (JObj [("success", JBool false);
                                  ("error", JObj [("code", JStr code);
                                                  ("message", JStr msg)])]))).

Definition s_fresh : State := state0 fresh_client 1000.

(** A client whose access token has expired and which holds a refresh
    token. *)
Definition s_expired : State :=
  mkState (mkClient sample_config (JStr "at0") (JStr "rt0") (Some (Num 500)))
          1000 [] [] 0.

(** A client whose access token is good for an hour. *)
Definition s_valid : State :=
  mkState (mkClient sample_config (JStr "at1") (JStr "rt1") (Some (Num 3601010)))
          2000 [] [] 0.

Definition job_payload : jsval := JObj [("jobId", JStr "j1")].

Definition cat_input : list (string * jsval) := [("prompt", JStr "a cat")].



(** The refresh exchange and the authenticate exchange are both refused. *)
Definition env_auth_refused : Env :=
  env_of [failure_envelope 401 "TOKEN_EXPIRED" "Refresh token expired";
          failure_envelope 401 "INVALID_API_KEY" "Unknown API key"].

(** The token response lacks [expiresIn]. *)
Definition env_no_lifetime : Env :=
  env_of [envelope (JObj [("accessToken", JStr "at1"); ("refreshToken", JStr "rt1")])].

(** A job whose every status is the payload [status]. *)
Definition env_job (status : jsval) : Env :=
  mkEnv (fun n => match n with
                  | O => envelope token_payload
                  | S O => envelope job_payload
                  | _ => envelope status
                  end)
        (fun _ => 0%N) (fun _ => NaN).

Definition completed_status : jsval :=
  JObj [("status", JStr "completed");
        ("result", JObj [("success", JBool true); ("url", JStr "https://cdn.test/cat.png")])].


Definition completed_without_result : jsval :=
  JObj [("status", JStr "completed"); ("progress", JNum (Num 100))].



Definition env_not_found : Env :=
  env_of [failure_envelope 404 "POST_NOT_FOUND" "No such post"].

(** The state in which the sample job has been submitted. *)
Definition s_submitted (env : Env) : State :=
  snd (submitMediaJob env (job_input (with_type "image" cat_input)) s_fresh).



(** What a [request] with body [body] hands to the transport. *)
Definition sent_body (body : jsval) : jsval :=
  if truthy body then body else JUndefined.






(** How often the character [c] occurs in [s]. *)
Fixpoint occurrences (c : ascii) (s : string) : nat :=
  match s with
  | EmptyString => 0%nat
  | String a rest => ((if Ascii.eqb a c then 1 else 0) + occurrences c rest)%nat
  end.

(** Every character of [s] satisfies [P]. *)
Fixpoint string_forall (P : ascii -> bool) (s : string) : bool :=
  match s with
  | EmptyString => true
  | String a rest => P a && string_forall P rest
  end.

(** The characters that a serialised name or value consists of. *)
Definition form_output (a : ascii) : bool :=
  form_safe a || Ascii.eqb a "+" || Ascii.eqb a "%".

(** The job answers [completed] at once, without carrying a job id. *)
Definition env_job_without_id : Env :=
  env_of [envelope token_payload; envelope (JObj [("status", JStr "queued")]);
          envelope completed_status].

(** A custom transport that ignores the abort signal and never settles. *)
Definition env_deaf : Env := env_of [DeafPending].

(** The response arrives after 10 ms and its body never does. *)
Definition env_body_stalls : Env :=
  env_of [Resolves 10 (mkResponse true 200 BodyPending)].

(** A client configured with a timeout of 2^31 ms. *)
Definition s_long_timeout : State :=
  state0 (mkClient (mkConfig (JStr "zk_live_key") DEFAULT_BASE_URL 2147483648 false)
                   JNull JNull None)
         1000.





(** ** Vocabulary of the statements *)

(** Timer ids are handed out in increasing order: a pending timer has an
    id below the next one. *)
Definition timers_fresh (s : State) : Prop :=
  Forall (fun t => (fst t < next_timer s)%nat) (timers s).

(** How long after a [request] sets its timer the timer fires. *)
Definition deadline (env : Env) (s : State) : Z :=
  timer_delay (timeout (config (client s))) + Z.of_N (timer_lag env (next_timer s)).

(** The state a transport call made in [s] leaves [elapsed] ms later, its
    timer fired or cleared. *)
Definition sent (s : State) (req : Request) (elapsed : Z) : State :=
  mkState (client s) (now s + elapsed) (req :: fetched s)
          (drop_timer (next_timer s) (timers s)) (S (next_timer s)).

Definition TIMEOUT_error : exn :=
  ZErr (new_ZilligonError (JStr "Request timed out") (JStr "TIMEOUT") JUndefined JUndefined).

Definition caught (o : outcome jsval) : outcome jsval :=
  match o with
  | Throw e => Throw (classify e)
  | _ => o
  end.

Definition count_path (p : string) (l : list Request) : nat :=
  List.length (filter (fun r => (req_path r =? p)%string) l).

Definition is_status_poll (r : Request) : bool :=
  String.prefix "/v1/media/status/" (req_path r).

Definition count_polls (l : list Request) : nat :=
  List.length (filter is_status_poll l).

(** [advance s s' new]: a run from [s] to [s'] made the transport calls
    [new] (latest first), did not turn the clock back, kept the
    configuration, and left the pending timers as they were. *)
Definition advance (s s' : State) (new : list Request) : Prop :=
  fetched s' = List.app new (fetched s)
  /\ now s <= now s'
  /\ config (client s') = config (client s)
  /\ (timers_fresh s ->
      timers s' = timers s /\ (next_timer s <= next_timer s')%nat).

Definition is_auth_call (r : Request) : Prop :=
  req_path r = "/v1/auth/token" \/ req_path r = "/v1/auth/refresh".

(** The bodies of the two token exchanges. *)
Definition auth_body (s : State) : jsval :=
  JObj [("apiKey", apiKey (config (client s)))].

Definition refresh_body (s : State) : jsval :=
  JObj [("refreshToken", refreshToken (client s))].

(** The last step of [ensureValidToken], from state [s1] on:
    [await this.authenticate(); return this.accessToken]. *)
Definition authenticate_and_return (env : Env) : M jsval :=
  authenticate env ;;;
  c <- get_client ;;
  ret (accessToken c).

(** A payload that is there: neither [undefined] nor [null]. *)
Definition present (v : jsval) : Prop := v <> JUndefined /\ v <> JNull.

(** A transport call that succeeds: it resolves within [limit] ms with an
    OK response whose envelope has a truthy [success] and a payload that
    is there and satisfies [P]. *)
Definition good_reply (limit : Z) (P : jsval -> Prop) (o : FetchOutcome) : Prop :=
  exists latency st data,
    o = Resolves latency (mkResponse true st (BodyJson data))
    /\ Z.of_N latency < timer_delay limit
    /\ truthy (opt_get data "success") = true
    /\ present (opt_get data "data")
    /\ P (opt_get data "data").

Definition all_good (env : Env) (limit : Z) (P : jsval -> Prop) : Prop :=
  forall n, good_reply limit P (reply env n).

(** A job status on which the loop of [generateMediaAndWait] stops. *)
Definition terminal (status : jsval) : bool :=
  (is_str (opt_get status "status") "completed" && truthy (opt_get status "result"))
  || is_str (opt_get status "status") "failed".

(** A transport call that is a token exchange, or goes to [path] with
    [method]. *)
Definition own_or_auth (method path : string) (q : Request) : Prop :=
  is_auth_call q \/ (req_method q = method /\ req_path q = path).

(** A transport call on which a [request] can wait forever: the call of a
    transport that ignores the abort signal never settles, or the body of
    the response never arrives. *)
Definition hangs (o : FetchOutcome) : Prop :=
  o = DeafPending
  \/ exists latency r,
       (o = Resolves latency r \/ o = DeafResolves latency r) /\ json r = BodyPending.

(** Some transport call of the run is one that [hangs]. *)
Definition hung (env : Env) : Prop := exists n, hangs (reply env n).

(** [authenticates env s1 r s']: [r] and [s'] are what the last step of
    [ensureValidToken] gives in [s1]: the authenticate exchange is made,
    its error is thrown on, and on return the access token stored then is
    returned. *)
Definition authenticates (env : Env) (s1 : State) (r : outcome jsval) (s' : State) : Prop :=
  exists r2 q,
    authenticate env s1 = (r2, s')
    /\ fetched s' = q :: fetched s1 /\ req_path q = "/v1/auth/token"
    /\ r = match r2 with
           | Ret _ => Ret (accessToken (client s'))
           | Throw e => Throw e
           | NoReturn => NoReturn
           end.



(** * Properties *)

(** ** Error classification *)

Lemma is_str_true (v : jsval) (s : string) : is_str v s = true <-> v = JStr s.
Proof.
  destruct v; simpl; try (split; [discriminate | intro H; inversion H]).
  rewrite String.eqb_eq. split; [intros -> | intro H; inversion H]; reflexivity.
Qed.

(** [isAuthError] holds of exactly four codes. *)
Lemma isAuthError_true (e : ZilligonError) :
  isAuthError e = true <->
  code e = JStr "INVALID_TOKEN" \/ code e = JStr "INVALID_API_KEY"
  \/ code e = JStr "TOKEN_EXPIRED" \/ code e = JStr "UNAUTHORIZED".
Proof.
  unfold isAuthError, includes. simpl.
  rewrite !Bool.orb_true_iff, !is_str_true. intuition discriminate.
Qed.

(** C8: [TOKEN_REVOKED] is listed in the authentication group of
    [ErrorCodes], and [isAuthError] is false on an error that carries it,
    whatever its message, status and details. *)
Theorem isAuthError_TOKEN_REVOKED :
  In "TOKEN_REVOKED" ErrorCodes_Authentication /\
  forall msg st d, isAuthError (mkZilligonError msg (JStr "TOKEN_REVOKED") st d) = false.
Proof.
  split.
  - simpl. tauto.
  - intros. reflexivity.
Qed.

(** ** Construction *)

(** C9: without an API key the constructor throws a [ZilligonError] with
    code [CONFIG_ERROR], whatever the other fields are (an empty key
    counts as none); with a non-empty key it returns a client, whose
    tokens are unset. *)
Theorem constructor_requires_apiKey (c : ZilligonConfig) :
  (cfg_apiKey c = None \/ cfg_apiKey c = Some "" ->
   exists e, constructor c = Throw (ZErr e)
             /\ code e = JStr "CONFIG_ERROR" /\ message e = "API key is required")
  /\ (forall k, cfg_apiKey c = Some k -> k <> "" ->
      exists cl, constructor c = Ret cl
                 /\ apiKey (config cl) = JStr k
                 /\ accessToken cl = JNull /\ refreshToken cl = JNull
                 /\ tokenExpiresAt cl = None).
Proof.
  unfold constructor. split.
  - intros [H | H]; rewrite H; simpl; eexists; repeat split.
  - intros k H Hk. rewrite H. simpl.
    apply String.eqb_neq in Hk. rewrite Hk. simpl.
    eexists; repeat split.
Qed.

Lemma constructor_requires_apiKey_witness :
  (exists e, constructor no_key_config = Throw (ZErr e)
             /\ code e = JStr "CONFIG_ERROR" /\ message e = "API key is required")
  /\ (exists cl, constructor key_config = Ret cl
                 /\ apiKey (config cl) = JStr "zk_live_key"
                 /\ accessToken cl = JNull /\ refreshToken cl = JNull
                 /\ tokenExpiresAt cl = None).
Proof.
  split.
  - apply (proj1 (constructor_requires_apiKey no_key_config)). left. reflexivity.
  - apply (proj2 (constructor_requires_apiKey key_config) "zk_live_key").
    + reflexivity.
    + discriminate.
Defined.

(** ** The validity predicates *)

Lemma js_lt_true (a b : jsnum) :
  js_lt a b = true <-> exists x y, a = Num x /\ b = Num y /\ x < y.
Proof.
  destruct a as [|x], b as [|y]; simpl;
    try (split; [discriminate | intros (? & ? & ? & ? & ?); discriminate]).
  rewrite Z.ltb_lt. split.
  - intro H. exists x, y. auto.
  - intros (x' & y' & Hx & Hy & H). inversion Hx; inversion Hy; subst. exact H.
Qed.

Lemma expiry_truthy_true (e : option jsnum) :
  expiry_truthy e = true <-> exists z, e = Some (Num z) /\ z <> 0.
Proof.
  destruct e as [[|z]|]; simpl;
    try (split; [discriminate | intros (? & ? & ?); discriminate]).
  rewrite Bool.negb_true_iff, Z.eqb_neq. split.
  - intro H. exists z. auto.
  - intros (z' & Hz & H). inversion Hz; subst. exact H.
Qed.

(** C3, as the code has it: the test of [ensureValidToken] holds exactly
    when an access token and an expiry instant are stored and the clock is
    more than 60000 ms before the expiry; [isAuthenticated] holds exactly
    when both are stored and the clock is before the expiry, with no
    margin.  Both fail on a client that never acquired a token. *)
Theorem validity_predicates (s : State) :
  (isValid s = true <->
   truthy (accessToken (client s)) = true
   /\ exists e, tokenExpiresAt (client s) = Some (Num e) /\ e <> 0
                /\ now s < e - 60000)
  /\ (isAuthenticated s = true <->
      truthy (accessToken (client s)) = true
      /\ exists e, tokenExpiresAt (client s) = Some (Num e) /\ e <> 0
                   /\ now s < e)
  /\ (accessToken (client s) = JNull -> tokenExpiresAt (client s) = None ->
      isValid s = false /\ isAuthenticated s = false).
Proof.
  assert (Hmargin : forall t m,
            (truthy (accessToken (client s))
             && expiry_truthy (tokenExpiresAt (client s))
             && js_lt (Num t) (js_sub (expiry_num (tokenExpiresAt (client s))) (Num m))
             = true) <->
            truthy (accessToken (client s)) = true
            /\ exists e, tokenExpiresAt (client s) = Some (Num e) /\ e <> 0
                         /\ t < e - m).
  { intros t m. rewrite !Bool.andb_true_iff, expiry_truthy_true, js_lt_true. split.
    - intros [[Ht (e & He & Hz)] (x & y & Hx & Hy & Hlt)].
      split; [exact Ht |]. exists e. rewrite He in Hy. simpl in Hy.
      inversion Hx; inversion Hy; subst. auto.
    - intros [Ht (e & He & Hz & Hlt)]. rewrite He. simpl.
      split; [split; [exact Ht | exists e; auto] |].
      exists t, (e - m). auto. }
  split; [| split].
  - apply Hmargin.
  - unfold isAuthenticated. specialize (Hmargin (now s) 0).
    replace (js_sub (expiry_num (tokenExpiresAt (client s))) (Num 0))
      with (expiry_num (tokenExpiresAt (client s))) in Hmargin.
    + rewrite Hmargin. split; intros [Ht (e & He & Hz & Hlt)];
        (split; [exact Ht | exists e; repeat split; auto; lia]).
    + destruct (expiry_num (tokenExpiresAt (client s))) as [|z]; simpl;
        [reflexivity | f_equal; lia].
  - intros Ha He. unfold isValid, isAuthenticated. rewrite Ha. split; reflexivity.
Qed.

Lemma validity_predicates_witness :
  isValid (state0 fresh_client 1000) = false
  /\ isAuthenticated (state0 fresh_client 1000) = false.
Proof.
  apply (proj2 (proj2 (validity_predicates (state0 fresh_client 1000))));
    reflexivity.
Defined.

(** C3, as stated, fails for [isAuthenticated]: 50 seconds before the
    expiry, within the margin, it still answers true (the test of
    [ensureValidToken] answers false). *)
Lemma isAuthenticated_within_margin :
  tokenExpiresAt (client near_expiry_state) = Some (Num 100000)
  /\ 100000 - 60000 <= now near_expiry_state
  /\ isValid near_expiry_state = false
  /\ isAuthenticated near_expiry_state = true.
Proof.
  repeat split. vm_compute. discriminate.
Qed.

(** ** The request executor *)

Lemma drop_timer_fresh (id : nat) (l : list (nat * Z)) :
  Forall (fun t => (fst t < id)%nat) l -> drop_timer id l = l.
Proof.
  induction 1 as [|t l Ht _ IH]; simpl; [reflexivity |].
  destruct (Nat.eqb_spec (fst t) id) as [E | _]; [lia |].
  simpl. now rewrite IH.
Qed.

Lemma drop_timer_idem (id : nat) (l : list (nat * Z)) :
  drop_timer id (drop_timer id l) = drop_timer id l.
Proof.
  induction l as [|t l IH]; simpl; [reflexivity |].
  destruct (Nat.eqb (fst t) id) eqn:E; simpl; [exact IH |].
  now rewrite E, IH.
Qed.

Lemma ltb_shift (t a b : Z) : (t + a <? t + b) = (a <? b).
Proof.
  destruct (Z.ltb_spec a b); [apply Z.ltb_lt | apply Z.ltb_ge]; lia.
Qed.

(** What one [send] does, case by case on how the transport settles. *)
Lemma send_eq env method path url headers body s :
  send env method path url headers body s =
  let req := mkRequest method path url headers
                       (if truthy body then body else JUndefined) (next_timer s) in
  match reply env (List.length (fetched s)) with
  | Pending => (Throw TIMEOUT_error, sent s req (deadline env s))
  | Rejects latency e =>
      if Z.of_N latency <? deadline env s
      then (Throw (classify e), sent s req (Z.of_N latency))
      else (Throw TIMEOUT_error, sent s req (deadline env s))
  | Resolves latency r =>
      if Z.of_N latency <? deadline env s
      then (caught (unwrap_envelope r), sent s req (Z.of_N latency))
      else (Throw TIMEOUT_error, sent s req (deadline env s))
  | DeafPending => (NoReturn, sent s req (deadline env s))
  | DeafRejects latency e => (Throw (classify e), sent s req (Z.of_N latency))
  | DeafResolves latency r => (caught (unwrap_envelope r), sent s req (Z.of_N latency))
  end.
Proof.
  unfold send, bind, get_client, setTimeout, try_catch, fetch, clearTimeout,
    lift, throw, sent, deadline.
  cbn [client now fetched timers next_timer req_signal fire_time].
  rewrite Nat.eqb_refl.
  assert (Hlt : forall n : N,
            (now s + Z.of_N n <?
             now s + timer_delay (timeout (config (client s)))
             + Z.of_N (timer_lag env (next_timer s)))
            = (Z.of_N n <?
               timer_delay (timeout (config (client s)))
               + Z.of_N (timer_lag env (next_timer s)))).
  { intro n. rewrite <- Z.add_assoc. apply ltb_shift. }
  assert (Hdrop : forall t l,
            drop_timer (next_timer s) ((next_timer s, t) :: l)
            = drop_timer (next_timer s) l).
  { intros t l. unfold drop_timer. cbn. now rewrite Nat.eqb_refl. }
  destruct (reply env (List.length (fetched s))) as
    [|latency e|latency r| |latency e|latency r]; rewrite ?Hlt.
  - cbn -[drop_timer]. now rewrite !Hdrop, drop_timer_idem, Z.add_assoc.
  - destruct (Z.of_N latency <? _); cbn -[drop_timer];
      now rewrite ?Hdrop, ?drop_timer_idem, ?Z.add_assoc.
  - destruct (Z.of_N latency <? _); cbn -[drop_timer].
    + destruct (unwrap_envelope r); cbn -[drop_timer];
        now rewrite ?Hdrop, ?drop_timer_idem.
    + now rewrite ?Hdrop, ?drop_timer_idem, ?Z.add_assoc.
  - cbn -[drop_timer]. now rewrite !Hdrop, Z.add_assoc.
  - destruct (Z.of_N latency <? _); cbn -[drop_timer];
      now rewrite ?Hdrop, ?drop_timer_idem.
  - destruct (Z.of_N latency <? _); cbn -[drop_timer];
      destruct (unwrap_envelope r); cbn -[drop_timer];
        now rewrite ?Hdrop, ?drop_timer_idem.
Qed.

Lemma advance_refl s : advance s s [].
Proof. unfold advance. repeat split; auto; lia. Qed.

Lemma timers_fresh_advance s s' new :
  advance s s' new -> timers_fresh s -> timers_fresh s'.
Proof.
  intros (_ & _ & _ & H) Hs. destruct (H Hs) as [Ht Hn].
  unfold timers_fresh in *. rewrite Ht.
  eapply Forall_impl; [| exact Hs]. cbn. intros; lia.
Qed.

Lemma advance_trans s s1 s2 new1 new2 :
  advance s s1 new1 -> advance s1 s2 new2 -> advance s s2 (List.app new2 new1).
Proof.
  intros H1 H2. pose proof (timers_fresh_advance _ _ _ H1) as Hf.
  destruct H1 as (L1 & N1 & C1 & T1), H2 as (L2 & N2 & C2 & T2).
  unfold advance. repeat split.
  - now rewrite L2, L1, app_assoc.
  - lia.
  - congruence.
  - destruct (T1 H), (T2 (Hf H)). congruence.
  - destruct (T1 H), (T2 (Hf H)). lia.
Qed.

Lemma timer_delay_pos d : 1 <= timer_delay d.
Proof.
  unfold timer_delay.
  destruct (Z.leb_spec 1 d); cbn; [destruct (d <=? TIMEOUT_MAX) |]; lia.
Qed.

Lemma timer_delay_in_range d : 1 <= d <= TIMEOUT_MAX -> timer_delay d = d.
Proof.
  intros [H1 H2]. unfold timer_delay.
  apply Z.leb_le in H1, H2. now rewrite H1, H2.
Qed.

Lemma timer_delay_out_of_range d : d < 1 \/ TIMEOUT_MAX < d -> timer_delay d = 1.
Proof.
  intro H. unfold timer_delay.
  destruct (Z.leb_spec 1 d); [| reflexivity].
  destruct (Z.leb_spec d TIMEOUT_MAX); [lia | reflexivity].
Qed.

Lemma deadline_nonneg env s : 0 <= deadline env s.
Proof.
  unfold deadline. pose proof (timer_delay_pos (timeout (config (client s)))). lia.
Qed.

Lemma sent_advance s req d : 0 <= d -> advance s (sent s req d) [req].
Proof.
  intro Hd. unfold advance, sent. cbn. repeat split; auto; try lia.
  apply drop_timer_fresh. exact H.
Qed.

(** Once the response is there, only its body can keep [request] from
    coming back. *)
Lemma unwrap_envelope_pending r : unwrap_envelope r = NoReturn <-> json r = BodyPending.
Proof.
  unfold unwrap_envelope, await_json, and_then, get, stringify_slice.
  destruct (json r) as [data | e |];
    [| split; discriminate | split; reflexivity].
  split; [| discriminate].
  destruct (negb (ok r)).
  - destruct data; try discriminate.
  - destruct data; try discriminate;
      match goal with
      | |- context [if ?b then _ else _] => destruct b
      end; try discriminate;
      match goal with
      | |- context [match ?v with JUndefined => _ | _ => _ end] => destruct v
      end; discriminate.
Qed.

Lemma caught_pending o : caught o = NoReturn <-> o = NoReturn.
Proof. destruct o; cbn; split; congruence. Qed.

(** A [send] makes one transport call, with the method and path it was
    given; it comes back unless that call [hangs]. *)
Lemma send_advance env method path url headers body s r s' :
  send env method path url headers body s = (r, s') ->
  exists req, advance s s' [req] /\ client s' = client s
              /\ req_method req = method /\ req_path req = path
              /\ (r = NoReturn -> hangs (reply env (List.length (fetched s)))).
Proof.
  rewrite send_eq. cbv zeta.
  pose proof (deadline_nonneg env s) as Hd.
  destruct (reply env (List.length (fetched s)))
    as [|latency e|latency resp| |latency e|latency resp];
    [| destruct (Z.of_N latency <? deadline env s)
     | destruct (Z.of_N latency <? deadline env s) | | |];
    intro H; inversion H; subst; clear H;
    eexists; (split; [apply sent_advance; lia |]);
    repeat split; try (intro Hn; discriminate Hn).
  - intro Hn. apply caught_pending, unwrap_envelope_pending in Hn.
    right. exists latency, resp. auto.
  - intros _. left. reflexivity.
  - intro Hn. apply caught_pending, unwrap_envelope_pending in Hn.
    right. exists latency, resp. auto.
Qed.

Lemma request_skipAuth_eq env method path body s :
  request_skipAuth env method path body s =
  send env method path (baseUrl (config (client s)) ++ path) json_headers body s.
Proof. reflexivity. Qed.

Lemma get_cases v k : (exists e, get v k = Throw e) \/ get v k = Ret (opt_get v k).
Proof. destruct v; cbn; eauto. Qed.

(** What the three assignments of a token response do: nothing when the
    response is [null] or [undefined] (the first read throws), all three
    otherwise. *)
Lemma store_tokens_eq env response s :
  store_tokens env response s =
  match get response "accessToken" with
  | Ret _ =>
      (Ret tt,
       mkState (mkClient (config (client s))
                         (opt_get response "accessToken")
                         (opt_get response "refreshToken")
                         (Some (js_add (Num (now s))
                                  (js_mul (toNumber env (opt_get response "expiresIn"))
                                          (Num 1000)))))
               (now s) (fetched s) (timers s) (next_timer s))
  | Throw e => (Throw e, s)
  | NoReturn => (NoReturn, s)
  end.
Proof.
  destruct response; reflexivity.
Qed.


(** ** Credential acquisition *)

Lemma authenticate_eq env s :
  authenticate env s =
  bind (request_skipAuth env "POST" "/v1/auth/token" (auth_body s)) (store_tokens env) s.
Proof. reflexivity. Qed.

Lemma refreshAccessToken_eq env s :
  refreshAccessToken env s =
  bind (request_skipAuth env "POST" "/v1/auth/refresh" (refresh_body s)) (store_tokens env) s.
Proof. reflexivity. Qed.

(** A token exchange: one call; the credentials change only when it
    returns, and then all three are those of the response. *)
Lemma exchange_spec env path body s r s' :
  bind (request_skipAuth env "POST" path body) (store_tokens env) s = (r, s') ->
  (exists req, advance s s' [req] /\ req_path req = path)
  /\ (r = NoReturn -> hangs (reply env (List.length (fetched s))))
  /\ match r with
     | Ret _ =>
         exists response s1,
           request_skipAuth env "POST" path body s = (Ret response, s1)
           /\ client s' =
              mkClient (config (client s))
                       (opt_get response "accessToken")
                       (opt_get response "refreshToken")
                       (Some (js_add (Num (now s'))
                                (js_mul (toNumber env (opt_get response "expiresIn"))
                                        (Num 1000))))
     | _ => client s' = client s
     end.
Proof.
  unfold bind.
  destruct (request_skipAuth env "POST" path body s) as [r1 s1] eqn:E1.
  pose proof E1 as E1'. rewrite request_skipAuth_eq in E1'.
  apply send_advance in E1'.
  destruct E1' as (req & Hadv & Hcl & _ & Hpath & Hret).
  destruct r1 as [response | e |].
  - rewrite store_tokens_eq. intro H.
    assert (Hadv' : advance s s' [req] /\ r <> NoReturn
                    /\ (client s' = client s /\ (forall a, r <> Ret a)
                        \/ r = Ret tt
                           /\ client s' =
                              mkClient (config (client s))
                                (opt_get response "accessToken")
                                (opt_get response "refreshToken")
                                (Some (js_add (Num (now s'))
                                   (js_mul (toNumber env (opt_get response "expiresIn"))
                                           (Num 1000)))))).
    { destruct Hadv as (L & N & C & T).
      destruct (get_cases response "accessToken") as [[e He] | He];
        rewrite He in H; inversion H; subst r s'; clear H.
      - split; [| split; [discriminate |]].
        + unfold advance. repeat split; auto; apply T; assumption.
        + left. split; [exact Hcl | discriminate].
      - split; [| split; [discriminate |]].
        + unfold advance; cbn. repeat split; auto; apply T; assumption.
        + right. split; [reflexivity |]. cbn. now rewrite Hcl. }
    destruct Hadv' as (Ha & Hr & Hc).
    split; [exists req; auto |]. split; [intro Hn; contradiction |].
    destruct Hc as [[Hc Hn] | [-> Hc]].
    + destruct r; [exfalso; eapply Hn; reflexivity | exact Hc | exact Hc].
    + exists response, s1. auto.
  - intro H; inversion H; subst r s'; clear H.
    split; [exists req; auto |]. split; [discriminate | exact Hcl].
  - intro H; inversion H; subst r s'; clear H.
    split; [exists req; auto |]. split; [intros _; now apply Hret | exact Hcl].
Qed.


(** ** The fallback chain of [ensureValidToken] *)

Lemma ensureValidToken_eq env s :
  ensureValidToken env s =
  if isValid s then (Ret (accessToken (client s)), s)
  else if truthy (refreshToken (client s))
       then match refreshAccessToken env s with
            | (Ret _, s1) =>
                if truthy (accessToken (client s1))
                then (Ret (accessToken (client s1)), s1)
                else authenticate_and_return env s1
            | (Throw _, s1) => authenticate_and_return env s1
            | (NoReturn, s1) => (NoReturn, s1)
            end
       else authenticate_and_return env s.
Proof.
  unfold ensureValidToken. destruct (isValid s); [reflexivity |].
  destruct (truthy (refreshToken (client s))); [| reflexivity].
  unfold bind at 1. unfold try_refresh, try_catch. unfold bind at 1.
  destruct (refreshAccessToken env s) as [[[] | e |] s1]; try reflexivity.
  cbn. destruct (truthy (accessToken (client s1))); reflexivity.
Qed.

Lemma authenticate_and_return_eq env s :
  authenticate_and_return env s =
  match authenticate env s with
  | (Ret _, s2) => (Ret (accessToken (client s2)), s2)
  | (Throw e, s2) => (Throw e, s2)
  | (NoReturn, s2) => (NoReturn, s2)
  end.
Proof.
  unfold authenticate_and_return, bind at 1.
  destruct (authenticate env s) as [[[] | e |] s2]; reflexivity.
Qed.

Lemma count_path_app p l1 l2 :
  count_path p (List.app l1 l2) = (count_path p l1 + count_path p l2)%nat.
Proof. unfold count_path. now rewrite filter_app, length_app. Qed.

Lemma count_path_one p req :
  count_path p [req] = if (req_path req =? p)%string then 1%nat else 0%nat.
Proof. unfold count_path. cbn. now destruct (req_path req =? p)%string. Qed.

Lemma authenticate_spec env s r s' :
  authenticate env s = (r, s') ->
  (exists req, advance s s' [req] /\ req_path req = "/v1/auth/token")
  /\ (r = NoReturn -> hung env).
Proof.
  rewrite authenticate_eq. intro H.
  destruct (exchange_spec _ _ _ _ _ _ H) as (Ha & Hr & _).
  split; [exact Ha |]. intro Hn. eexists. exact (Hr Hn).
Qed.

Lemma refreshAccessToken_spec env s r s' :
  refreshAccessToken env s = (r, s') ->
  (exists req, advance s s' [req] /\ req_path req = "/v1/auth/refresh")
  /\ (r = NoReturn -> hung env).
Proof.
  rewrite refreshAccessToken_eq. intro H.
  destruct (exchange_spec _ _ _ _ _ _ H) as (Ha & Hr & _).
  split; [exact Ha |]. intro Hn. eexists. exact (Hr Hn).
Qed.

Lemma authenticate_and_return_spec env s r s' :
  authenticate_and_return env s = (r, s') ->
  (exists req, advance s s' [req] /\ req_path req = "/v1/auth/token")
  /\ (r = NoReturn -> hung env)
  /\ (forall e, r = Throw e -> authenticate env s = (Throw e, s'))
  /\ (forall tok, r = Ret tok -> tok = accessToken (client s')).
Proof.
  rewrite authenticate_and_return_eq.
  destruct (authenticate env s) as [r2 s2] eqn:E.
  destruct (authenticate_spec _ _ _ _ E) as [Ha Hr].
  destruct r2 as [[] | e |];
    intro H; inversion H; subst r s'; clear H;
    (split; [exact Ha |]); (split; [intro Hn; first [discriminate Hn | now apply Hr] |]);
    split; intros x Hx; inversion Hx; subst; reflexivity.
Qed.

Lemma authenticate_and_return_authenticates env s r s' :
  authenticate_and_return env s = (r, s') -> authenticates env s r s'.
Proof.
  rewrite authenticate_and_return_eq.
  destruct (authenticate env s) as [r2 s2] eqn:E.
  destruct (authenticate_spec _ _ _ _ E) as [(q & (L & _) & Pq) _].
  intro H. exists r2, q.
  destruct r2 as [[] | e |]; inversion H; subst r s'; auto.
Qed.

Ltac auth_calls :=
  repeat first [ apply Forall_nil
               | apply Forall_cons; [unfold is_auth_call; auto |] ].

(** C2: [ensureValidToken] on a token that passes the 60 s margin returns
    it and leaves the state as it is (no transport call).  Otherwise it
    makes token exchanges only: one refresh call exactly when a refresh
    token is stored, and at most one authenticate call.  When it throws,
    the authenticate call was made and the error is the one
    [authenticate] threw, run from the state the refresh attempt left;
    when it returns, it returns the stored access token; it fails to come
    back only when a transport call hangs.  Without a refresh token the
    call is the authenticate step.  With one, a refresh that yields an
    access token ends the call there; after a refresh that throws (the
    error is dropped) or yields no access token the call is the
    authenticate step, made in the state the refresh left. *)
Theorem ensureValidToken_fallback_chain env s r s' :
  ensureValidToken env s = (r, s') ->
  (isValid s = true -> r = Ret (accessToken (client s)) /\ s' = s)
  /\ (isValid s = false ->
      exists new,
        fetched s' = List.app new (fetched s)
        /\ Forall is_auth_call new
        /\ count_path "/v1/auth/refresh" new
           = (if truthy (refreshToken (client s)) then 1 else 0)%nat
        /\ (count_path "/v1/auth/token" new <= 1)%nat
        /\ (r = NoReturn -> hung env)
        /\ (forall e, r = Throw e ->
              count_path "/v1/auth/token" new = 1%nat
              /\ exists s1, authenticate env s1 = (Throw e, s')
                   /\ if truthy (refreshToken (client s))
                      then exists r1, refreshAccessToken env s = (r1, s1)
                      else s1 = s)
        /\ (forall tok, r = Ret tok -> tok = accessToken (client s')))
  /\ (isValid s = false -> truthy (refreshToken (client s)) = false ->
      authenticates env s r s')
  /\ (isValid s = false -> truthy (refreshToken (client s)) = true ->
      forall r1 s1, refreshAccessToken env s = (r1, s1) ->
        match r1 with
        | Ret _ =>
            if truthy (accessToken (client s1))
            then r = Ret (accessToken (client s1)) /\ s' = s1
            else authenticates env s1 r s'
        | Throw _ => authenticates env s1 r s'
        | NoReturn => r = NoReturn /\ s' = s1
        end).
Proof.
  rewrite ensureValidToken_eq. intro H.
  split; [| split; [| split]]; intro Hv; rewrite Hv in H.
  - inversion H. auto.
  - destruct (truthy (refreshToken (client s))).
    + destruct (refreshAccessToken env s) as [r1 s1] eqn:E1.
      destruct (refreshAccessToken_spec _ _ _ _ E1) as [(q1 & A1 & P1) R1].
      assert (Hfall : authenticate_and_return env s1 = (r, s') ->
                exists new,
                  fetched s' = List.app new (fetched s)
                  /\ Forall is_auth_call new
                  /\ count_path "/v1/auth/refresh" new = 1%nat
                  /\ (count_path "/v1/auth/token" new <= 1)%nat
                  /\ (r = NoReturn -> hung env)
                  /\ (forall e, r = Throw e ->
                        count_path "/v1/auth/token" new = 1%nat
                        /\ exists s2, authenticate env s2 = (Throw e, s')
                             /\ exists r2, (r1, s1) = (r2, s2))
                  /\ (forall tok, r = Ret tok -> tok = accessToken (client s'))).
      { intro H2.
        destruct (authenticate_and_return_spec _ _ _ _ H2)
          as ((q2 & A2 & P2) & R2 & T2 & K2).
        exists [q2; q1]. pose proof (advance_trans _ _ _ _ _ A1 A2) as (L & _).
        assert (C1 : count_path "/v1/auth/refresh" [q2; q1] = 1%nat).
        { change [q2; q1] with (List.app [q2] [q1]).
          rewrite count_path_app, !count_path_one, P1, P2. reflexivity. }
        assert (C2 : count_path "/v1/auth/token" [q2; q1] = 1%nat).
        { change [q2; q1] with (List.app [q2] [q1]).
          rewrite count_path_app, !count_path_one, P1, P2. reflexivity. }
        repeat split; auto.
        - auth_calls.
        - lia.
        - exists s1. split; [auto |]. exists r1. reflexivity. }
      destruct r1 as [[] | e1 |].
      * destruct (truthy (accessToken (client s1))) eqn:Ht; [| exact (Hfall H)].
        inversion H; subst r s'; clear H. exists [q1].
        destruct A1 as (L & _).
        rewrite !count_path_one, P1. cbn.
        repeat split; auto; try (intros; discriminate).
        -- auth_calls.
        -- intros tok Htok. inversion Htok. reflexivity.
      * exact (Hfall H).
      * inversion H; subst r s'; clear H. exists [q1].
        destruct A1 as (L & _).
        rewrite !count_path_one, P1. cbn.
        repeat split; auto; try (intros; discriminate).
        auth_calls.
    + destruct (authenticate_and_return_spec _ _ _ _ H)
        as ((q2 & A2 & P2) & R2 & T2 & K2).
      exists [q2]. destruct A2 as (L & _).
      rewrite !count_path_one, P2. cbn.
      repeat split; auto.
      * auth_calls.
      * exists s. auto.
  - intro Hrt. rewrite Hrt in H. now apply authenticate_and_return_authenticates.
  - intros Hrt r1 s1 E1. rewrite Hrt, E1 in H.
    destruct r1 as [[] | e1 |].
    + destruct (truthy (accessToken (client s1))).
      * inversion H; auto.
      * now apply authenticate_and_return_authenticates.
    + now apply authenticate_and_return_authenticates.
    + inversion H; auto.
Qed.

(** ** What any request does to the state *)

Lemma ensureValidToken_advance env s r s' :
  ensureValidToken env s = (r, s') ->
  exists new, advance s s' new /\ Forall is_auth_call new
              /\ (r = NoReturn -> hung env).
Proof.
  rewrite ensureValidToken_eq.
  assert (Hfall : forall s1 new1, advance s s1 new1 -> Forall is_auth_call new1 ->
            authenticate_and_return env s1 = (r, s') ->
            exists new, advance s s' new /\ Forall is_auth_call new
                        /\ (r = NoReturn -> hung env)).
  { intros s1 new1 A1 F1 H.
    destruct (authenticate_and_return_spec _ _ _ _ H) as ((q & A2 & P2) & R2 & _).
    exists (List.app [q] new1). split; [eapply advance_trans; eauto |].
    split; [| exact R2]. cbn. apply Forall_cons; [unfold is_auth_call; auto | exact F1]. }
  destruct (isValid s).
  - intro H; inversion H; subst. exists []. split; [apply advance_refl |].
    split; [constructor | discriminate].
  - destruct (truthy (refreshToken (client s))).
    + destruct (refreshAccessToken env s) as [r1 s1] eqn:E1.
      destruct (refreshAccessToken_spec _ _ _ _ E1) as [(q1 & A1 & P1) R1].
      assert (F1 : Forall is_auth_call [q1]) by auth_calls.
      destruct r1 as [[] | e1 |].
      * destruct (truthy (accessToken (client s1))); [| eauto].
        intro H; inversion H; subst. exists [q1].
        split; [exact A1 | split; [exact F1 | discriminate]].
      * eauto.
      * intro H; inversion H; subst. exists [q1].
        split; [exact A1 | split; [exact F1 | intros _; now apply R1]].
    + apply (Hfall s []); [apply advance_refl | constructor].
Qed.

Lemma request_eq env method path body skipAuth s :
  request env method path body skipAuth s =
  match auth_headers (ensureValidToken env) skipAuth s with
  | (Ret headers, s1) =>
      send env method path (baseUrl (config (client s)) ++ path) headers body s1
  | (Throw e, s1) => (Throw e, s1)
  | (NoReturn, s1) => (NoReturn, s1)
  end.
Proof. reflexivity. Qed.

Lemma auth_headers_advance env skipAuth s r s1 :
  auth_headers (ensureValidToken env) skipAuth s = (r, s1) ->
  exists new, advance s s1 new /\ Forall is_auth_call new
              /\ (r = NoReturn -> hung env).
Proof.
  unfold auth_headers. destruct skipAuth; cbn.
  - intro H; inversion H; subst. exists [].
    split; [apply advance_refl | split; [constructor | discriminate]].
  - unfold bind. destruct (ensureValidToken env s) as [r0 s0] eqn:E.
    destruct (ensureValidToken_advance _ _ _ _ E) as (new & A & F & R).
    destruct r0; intro H; inversion H; subst;
      exists new; (split; [exact A | split; [exact F |]]);
      intro Hn; first [discriminate Hn | now apply R].
Qed.

Lemma count_polls_app l1 l2 :
  count_polls (List.app l1 l2) = (count_polls l1 + count_polls l2)%nat.
Proof. unfold count_polls. now rewrite filter_app, length_app. Qed.

Lemma count_polls_auth l : Forall is_auth_call l -> count_polls l = 0%nat.
Proof.
  induction 1 as [|q l Hq _ IH]; [reflexivity |].
  unfold count_polls in *. cbn.
  replace (is_status_poll q) with false; [exact IH |].
  unfold is_status_poll. destruct Hq as [-> | ->]; reflexivity.
Qed.

(** Any [request]: it makes token exchanges and at most one call of its
    own, to the path it was given; it comes back unless a transport call
    hangs. *)
Lemma request_advance env method path body skipAuth s r s' :
  request env method path body skipAuth s = (r, s') ->
  exists new, advance s s' new /\ (r = NoReturn -> hung env)
              /\ (count_polls new <= 1)%nat
              /\ (String.prefix "/v1/media/status/" path = false ->
                  count_polls new = 0%nat).
Proof.
  rewrite request_eq.
  destruct (auth_headers (ensureValidToken env) skipAuth s) as [r1 s1] eqn:E.
  destruct (auth_headers_advance _ _ _ _ _ E) as (new1 & A1 & F1 & R1).
  pose proof (count_polls_auth _ F1) as C1.
  destruct r1 as [headers | e |].
  - intro H. destruct (send_advance _ _ _ _ _ _ _ _ _ H) as (q & A2 & _ & _ & Pq & R2).
    exists (List.app [q] new1). split; [eapply advance_trans; eauto |].
    split; [intro Hn; eexists; exact (R2 Hn) |]. rewrite count_polls_app, C1.
    unfold count_polls, is_status_poll. cbn. rewrite Pq.
    destruct (String.prefix "/v1/media/status/" path); cbn; split; try lia; congruence.
  - intro H; inversion H; subst. exists new1.
    split; [exact A1 | split; [discriminate | split; [lia | auto]]].
  - intro H; inversion H; subst. exists new1.
    split; [exact A1 | split; [intros _; now apply R1 | split; [lia | auto]]].
Qed.

Lemma sleep_advance env ms s :
  advance s (snd (sleep env ms s)) []
  /\ now s + timer_delay ms <= now (snd (sleep env ms s)).
Proof.
  pose proof (timer_delay_pos ms).
  unfold advance, sleep. cbn. repeat split; auto; lia.
Qed.

(** ** The polling loop *)

Lemma poll_loop_S env fuel input job start s :
  poll_loop env (S fuel) input job start s =
  if now s - start <? maxWaitMs
  then match getMediaJobStatus env (opt_get job "jobId")
               (snd (sleep env pollIntervalMs s)) with
       | (Ret status, s2) =>
           match get status "status" with
           | Ret st =>
               if is_str st "completed" && truthy (opt_get status "result")
               then (Ret (opt_get status "result"), s2)
               else if is_str st "failed"
                    then (Ret (failed_result input), s2)
                    else poll_loop env fuel input job start s2
           | Throw e => (Throw e, s2)
           | NoReturn => (NoReturn, s2)
           end
       | (Throw e, s2) => (Throw e, s2)
       | (NoReturn, s2) => (NoReturn, s2)
       end
  else (Ret (timeout_result input), s).
Proof.
  cbn [poll_loop]. unfold bind at 1. unfold Date_now.
  destruct (now s - start <? maxWaitMs); [| reflexivity].
  unfold bind at 1. unfold sleep at 1. cbn [snd].
  unfold bind at 1.
  destruct (getMediaJobStatus env (opt_get job "jobId") _) as [[status | e |] s2];
    try reflexivity.
  unfold bind at 1, lift.
  destruct (get status "status") as [st | e |]; try reflexivity.
  destruct (is_str st "completed" && truthy (opt_get status "result")); [reflexivity |].
  destruct (is_str st "failed"); reflexivity.
Qed.

(** One iteration, seen from a state [s] inside the ceiling: the status
    request is made after the sleep. *)
Lemma poll_advance env jobId s r s2 :
  getMediaJobStatus env jobId (snd (sleep env pollIntervalMs s)) = (r, s2) ->
  exists new, advance s s2 new /\ (r = NoReturn -> hung env)
              /\ (count_polls new <= 1)%nat /\ now s + pollIntervalMs <= now s2.
Proof.
  intro H. destruct (sleep_advance env pollIntervalMs s) as [A0 N0].
  change (timer_delay pollIntervalMs) with pollIntervalMs in N0.
  destruct (request_advance _ _ _ _ _ _ _ _ H) as (new & A & R & C & _).
  exists (List.app new []). split; [eapply advance_trans; eauto |].
  rewrite app_nil_r. repeat split; auto.
  destruct A as (_ & N & _). lia.
Qed.

Lemma poll_loop_bound env input job start fuel :
  forall s r s',
    poll_loop env fuel input job start s = (r, s') ->
    exists new,
      advance s s' new
      /\ (count_polls new = 0%nat
          \/ pollIntervalMs * Z.of_nat (count_polls new)
             <= maxWaitMs - (now s - start) + (pollIntervalMs - 1)).
Proof.
  induction fuel as [|fuel IH]; intros s r s'.
  - intro H. change (poll_loop env 0 input job start s) with (@NoReturn jsval, s) in H.
    inversion H; subst r s'. exists []. split; [apply advance_refl | left; reflexivity].
  - rewrite poll_loop_S.
    destruct (Z.ltb_spec (now s - start) maxWaitMs) as [Hlt | Hge].
    + destruct (getMediaJobStatus env _ _) as [r1 s2] eqn:E.
      destruct (poll_advance _ _ _ _ _ E) as (new1 & A1 & R1 & C1 & N1).
      assert (Hstop : forall x, (x, s2) = (r, s') ->
                exists new, advance s s' new
                  /\ (count_polls new = 0%nat
                      \/ pollIntervalMs * Z.of_nat (count_polls new)
                         <= maxWaitMs - (now s - start) + (pollIntervalMs - 1))).
      { intros x H; inversion H; subst. exists new1. split; [exact A1 |].
        unfold pollIntervalMs in *. lia. }
      destruct r1 as [status | e |]; [| apply Hstop | apply Hstop].
      destruct (get status "status") as [st | e |]; [| apply Hstop | apply Hstop].
      destruct (is_str st "completed" && truthy (opt_get status "result"));
        [apply Hstop |].
      destruct (is_str st "failed"); [apply Hstop |].
      intro H. destruct (IH _ _ _ H) as (new2 & A2 & C2).
      exists (List.app new2 new1). split; [eapply advance_trans; eauto |].
      rewrite count_polls_app. unfold pollIntervalMs in *. lia.
    + intro H; inversion H; subst r s'. exists [].
      split; [apply advance_refl | left; reflexivity].
Qed.


(** ** Runs in which every transport call succeeds *)

Lemma unwrap_good st data :
  truthy (opt_get data "success") = true ->
  present (opt_get data "data") ->
  unwrap_envelope (mkResponse true st (BodyJson data)) = Ret (opt_get data "data").
Proof.
  intros Hs [Hu Hn]. destruct data; try discriminate.
  unfold unwrap_envelope, await_json, and_then. cbn [json ok negb get].
  rewrite Hs. cbn [negb]. unfold stringify_slice.
  destruct (opt_get (JObj fields) "data"); reflexivity || congruence.
Qed.

Lemma send_good env P method path url headers body s :
  good_reply (timeout (config (client s))) P (reply env (List.length (fetched s))) ->
  exists payload s',
    send env method path url headers body s = (Ret payload, s')
    /\ present payload /\ P payload.
Proof.
  intros (latency & st & data & Hr & Hl & Hs & Hp & HP).
  rewrite send_eq. cbv zeta. rewrite Hr.
  assert (Hd : (Z.of_N latency <? deadline env s) = true).
  { apply Z.ltb_lt. unfold deadline. lia. }
  rewrite Hd, unwrap_good by assumption. cbn. eauto.
Qed.

Lemma get_present v k : present v -> get v k = Ret (opt_get v k).
Proof. intros [Hu Hn]. destruct v; reflexivity || congruence. Qed.

Section AllGood.
Variable env : Env.
Variable limit : Z.
Variable P : jsval -> Prop.
Hypothesis Hgood : all_good env limit P.

Lemma exchange_good path body s :
  timeout (config (client s)) = limit ->
  exists s', bind (request_skipAuth env "POST" path body) (store_tokens env) s
             = (Ret tt, s').
Proof.
  intro Ht. unfold bind at 1. rewrite request_skipAuth_eq.
  destruct (send_good env P "POST" path (baseUrl (config (client s)) ++ path)
              json_headers body s) as (payload & s1 & E & Hp & _).
  { rewrite Ht. apply Hgood. }
  rewrite E, store_tokens_eq, (get_present _ _ Hp). eauto.
Qed.

Lemma authenticate_and_return_good s :
  timeout (config (client s)) = limit ->
  exists tok s', authenticate_and_return env s = (Ret tok, s').
Proof.
  intro Ht. rewrite authenticate_and_return_eq, authenticate_eq.
  destruct (exchange_good "/v1/auth/token" (auth_body s) s Ht) as (s' & E).
  rewrite E. eauto.
Qed.

Lemma ensureValidToken_good s :
  timeout (config (client s)) = limit ->
  exists tok s', ensureValidToken env s = (Ret tok, s').
Proof.
  intro Ht. rewrite ensureValidToken_eq.
  destruct (isValid s); [eauto |].
  destruct (truthy (refreshToken (client s)));
    [| apply authenticate_and_return_good; exact Ht].
  rewrite refreshAccessToken_eq.
  destruct (exchange_good "/v1/auth/refresh" (refresh_body s) s Ht) as (s1 & E).
  rewrite E. destruct (truthy (accessToken (client s1))); [eauto |].
  apply authenticate_and_return_good.
  rewrite <- refreshAccessToken_eq in E.
  destruct (refreshAccessToken_spec _ _ _ _ E) as [(q & (_ & _ & C & _) & _) _].
  now rewrite C.
Qed.

Lemma request_good method path body skipAuth s :
  timeout (config (client s)) = limit ->
  exists payload s',
    request env method path body skipAuth s = (Ret payload, s')
    /\ present payload /\ P payload.
Proof.
  intro Ht. rewrite request_eq.
  destruct (auth_headers (ensureValidToken env) skipAuth s) as [r1 s1] eqn:E.
  destruct (auth_headers_advance _ _ _ _ _ E) as (new & (_ & _ & C & _) & _ & _).
  assert (exists headers, r1 = Ret headers) as [headers ->].
  { unfold auth_headers in E. destruct skipAuth; cbn in E.
    - inversion E. eauto.
    - unfold bind in E. destruct (ensureValidToken_good s Ht) as (tok & s0 & E0).
      rewrite E0 in E. inversion E. eauto. }
  apply send_good. rewrite C, Ht. apply Hgood.
Qed.

(** With enough fuel for the time that is left, the loop returns; it
    returns the timeout result when no status is terminal. *)
Lemma poll_loop_good input job start fuel :
  forall s,
    timeout (config (client s)) = limit ->
    (0 < fuel)%nat ->
    maxWaitMs - (now s - start) <= pollIntervalMs * (Z.of_nat fuel - 1) ->
    exists v s',
      poll_loop env fuel input job start s = (Ret v, s')
      /\ ((forall p, P p -> terminal p = false) ->
          v = timeout_result input /\ maxWaitMs <= now s' - start).
Proof.
  induction fuel as [|fuel IH]; intros s Ht Hpos Hbudget; [lia |].
  rewrite poll_loop_S.
  destruct (Z.ltb_spec (now s - start) maxWaitMs) as [Hlt | Hge];
    [| exists (timeout_result input), s; auto].
  destruct (sleep_advance env pollIntervalMs s) as [(_ & _ & C0 & _) _].
  destruct (request_good "GET" ("/v1/media/status/" ++ toString (opt_get job "jobId"))
              JUndefined false (snd (sleep env pollIntervalMs s)))
    as (status & s2 & E & Hp & HP); [now rewrite C0 |].
  fold (getMediaJobStatus env (opt_get job "jobId")) in E.
  destruct (poll_advance _ _ _ _ _ E) as (new1 & (_ & _ & C1 & _) & _ & _ & N1).
  rewrite E, (get_present _ _ Hp).
  destruct (is_str (opt_get status "status") "completed"
            && truthy (opt_get status "result")) eqn:Hdone.
  { exists (opt_get status "result"), s2. split; [reflexivity |].
    intro Hnt. specialize (Hnt _ HP). unfold terminal in Hnt.
    rewrite Hdone in Hnt. discriminate. }
  destruct (is_str (opt_get status "status") "failed") eqn:Hfailed.
  { exists (failed_result input), s2. split; [reflexivity |].
    intro Hnt. specialize (Hnt _ HP). unfold terminal in Hnt.
    rewrite Hdone, Hfailed in Hnt. discriminate. }
  apply IH; [congruence | |]; unfold pollIntervalMs in *; lia.
Qed.
End AllGood.

(** ** [generateMediaAndWait] *)

Lemma generateMediaAndWait_eq env fuel input s :
  generateMediaAndWait env fuel input s =
  match submitMediaJob env (job_input input) s with
  | (Ret job, s1) =>
      match get job "jobId" with
      | Ret _ => poll_loop env fuel input job (now s1) s1
      | Throw e => (Throw e, s1)
      | NoReturn => (NoReturn, s1)
      end
  | (Throw e, s1) => (Throw e, s1)
  | (NoReturn, s1) => (NoReturn, s1)
  end.
Proof.
  unfold generateMediaAndWait, bind at 1.
  destruct (submitMediaJob env (job_input input) s) as [[job | e |] s1]; reflexivity.
Qed.

Lemma submitMediaJob_advance env input s r s1 :
  submitMediaJob env input s = (r, s1) ->
  exists new, advance s s1 new /\ (r = NoReturn -> hung env)
              /\ count_polls new = 0%nat.
Proof.
  unfold submitMediaJob. intro H.
  destruct (request_advance _ _ _ _ _ _ _ _ H) as (new & A & R & _ & C).
  exists new. split; [exact A | split; [exact R | apply C; reflexivity]].
Qed.

Lemma enough_fuel_budget fuel :
  (enough_fuel <= fuel)%nat ->
  (0 < fuel)%nat /\ maxWaitMs <= pollIntervalMs * (Z.of_nat fuel - 1).
Proof.
  unfold enough_fuel. change (Z.to_nat (maxWaitMs / pollIntervalMs)) with 150%nat.
  unfold maxWaitMs, pollIntervalMs. lia.
Qed.







(** *** Rounds of the loop *)











(** When every transport call succeeds and no payload is a terminal
    status, the run ends at the ceiling with the timeout result. *)
Lemma generateMediaAndWait_times_out env fuel input s :
  all_good env (timeout (config (client s))) (fun p => terminal p = false) ->
  (enough_fuel <= fuel)%nat ->
  exists s',
    generateMediaAndWait env fuel input s = (Ret (timeout_result input), s')
    /\ maxWaitMs <= now s' - now s.
Proof.
  intros Hgood Hfuel. rewrite generateMediaAndWait_eq.
  destruct (request_good env _ _ Hgood "POST" "/v1/media/generate"
              (req_body_of_submit (job_input input)) false s eq_refl)
    as (job & s1 & E & Hp & _).
  change (request env "POST" "/v1/media/generate"
            (req_body_of_submit (job_input input)) false)
    with (submitMediaJob env (job_input input)) in E.
  destruct (submitMediaJob_advance _ _ _ _ _ E) as (new & (_ & N & C & _) & _).
  rewrite E, (get_present _ _ Hp).
  destruct (enough_fuel_budget _ Hfuel) as [Hpos Hb].
  destruct (poll_loop_good env _ _ Hgood input job (now s1) fuel s1)
    as (v & s' & Ev & Hv); [congruence | exact Hpos | lia |].
  destruct Hv as [-> Hn]; [auto |]. exists s'. split; [exact Ev | lia].
Qed.



(** ** Classification of responses, and the timeout *)


(** C6, as the code has it.  A request whose transport call honours the
    abort signal and never settles throws a [ZilligonError] with code
    [TIMEOUT], at the instant the abort timer fires: [timer_delay] of the
    configured timeout (and the timer's lag) after the call was made,
    which is the configured timeout when that lies between 1 and
    [TIMEOUT_MAX], and 1 ms otherwise.  Whatever way a request ends, the
    pending timers are afterwards those that were pending before.  A
    client constructed without [timeout] has a timeout of 30000 ms.  A
    request does not come back, and so does not time out, when its
    transport ignores the signal and never settles, and when the response
    arrives in time and its body never does; these are the only calls of
    its own on which it does not come back. *)
Theorem request_timeout_and_timer env method path body skipAuth s :
  (forall headers s1,
     auth_headers (ensureValidToken env) skipAuth s = (Ret headers, s1) ->
     reply env (List.length (fetched s1)) = Pending ->
     exists e s',
       request env method path body skipAuth s = (Throw (ZErr e), s')
       /\ code e = JStr "TIMEOUT"
       /\ now s' = now s1 + timer_delay (timeout (config (client s)))
                   + Z.of_N (timer_lag env (next_timer s1))
       /\ (1 <= timeout (config (client s)) <= TIMEOUT_MAX ->
           now s' = now s1 + timeout (config (client s))
                    + Z.of_N (timer_lag env (next_timer s1)))
       /\ (timeout (config (client s)) < 1 \/ TIMEOUT_MAX < timeout (config (client s)) ->
           now s' = now s1 + 1 + Z.of_N (timer_lag env (next_timer s1))))
  /\ (forall r s',
        request env method path body skipAuth s = (r, s') ->
        timers_fresh s -> timers s' = timers s)
  /\ (forall c cl, constructor c = Ret cl -> cfg_timeout c = None ->
      timeout (config cl) = 30000 /\ timer_delay (timeout (config cl)) = 30000)
  /\ (forall headers s1,
        auth_headers (ensureValidToken env) skipAuth s = (Ret headers, s1) ->
        (reply env (List.length (fetched s1)) = DeafPending ->
         fst (request env method path body skipAuth s) = NoReturn)
        /\ (forall latency resp,
              reply env (List.length (fetched s1)) = Resolves latency resp ->
              Z.of_N latency < deadline env s1 ->
              json resp = BodyPending ->
              fst (request env method path body skipAuth s) = NoReturn)
        /\ (fst (request env method path body skipAuth s) = NoReturn ->
            hangs (reply env (List.length (fetched s1))))).
Proof.
  split; [| split; [| split]].
  - intros headers s1 Hh Hr.
    destruct (auth_headers_advance _ _ _ _ _ Hh) as (new & (_ & _ & C & _) & _).
    rewrite request_eq, Hh, send_eq. cbv zeta. rewrite Hr.
    eexists; eexists. split; [reflexivity |]. split; [reflexivity |].
    unfold sent, deadline. cbn [now]. rewrite C.
    split; [lia |]. split.
    + intro Hin. rewrite (timer_delay_in_range _ Hin). lia.
    + intro Hout. rewrite (timer_delay_out_of_range _ Hout). lia.
  - intros r s' E Hf.
    destruct (request_advance _ _ _ _ _ _ _ _ E) as (new & (_ & _ & _ & T) & _).
    apply T. exact Hf.
  - intros c cl Hc Ht. unfold constructor in Hc.
    destruct (negb _); inversion Hc; subst. cbn. now rewrite Ht.
  - intros headers s1 Hh. rewrite request_eq, Hh. split; [| split].
    + intro Hr. rewrite send_eq. cbv zeta. now rewrite Hr.
    + intros latency resp Hr Hl Hj. rewrite send_eq. cbv zeta. rewrite Hr.
      apply Z.ltb_lt in Hl. rewrite Hl. cbn [fst].
      apply caught_pending, unwrap_envelope_pending. exact Hj.
    + destruct (send env method path _ headers body s1) as [r s'] eqn:E.
      destruct (send_advance _ _ _ _ _ _ _ _ _ E) as (q & _ & _ & _ & _ & R).
      exact R.
Qed.

(** ** The statements at sample runs *)

Lemma env_job_good status P :
  present status -> P token_payload -> P job_payload -> P status ->
  all_good (env_job status) 30000 P.
Proof.
  intros Hs Ht Hj HP n. unfold good_reply.
  destruct n as [|[|n]]; cbn; do 3 eexists;
    (split; [reflexivity |]); (split; [lia |]); (split; [reflexivity |]);
    (split; [| assumption]); try assumption; split; discriminate.
Qed.



Lemma ensureValidToken_fallback_chain_witness :
  (fst (ensureValidToken env_auth_refused s_valid) = Ret (JStr "at1")
   /\ snd (ensureValidToken env_auth_refused s_valid) = s_valid)
  /\ (exists new,
        fetched (snd (ensureValidToken env_auth_refused s_expired))
        = List.app new (fetched s_expired)
        /\ count_path "/v1/auth/refresh" new = 1%nat
        /\ count_path "/v1/auth/token" new = 1%nat
        /\ fst (ensureValidToken env_auth_refused s_expired)
           = Throw (ZErr (mkZilligonError "Unknown API key" (JStr "INVALID_API_KEY")
                                          (JNum (Num 401)) JUndefined)))
  /\ authenticates (env_of [envelope token_payload]) s_fresh
       (fst (ensureValidToken (env_of [envelope token_payload]) s_fresh))
       (snd (ensureValidToken (env_of [envelope token_payload]) s_fresh))
  /\ authenticates env_auth_refused
       (snd (refreshAccessToken env_auth_refused s_expired))
       (fst (ensureValidToken env_auth_refused s_expired))
       (snd (ensureValidToken env_auth_refused s_expired)).
Proof.
  split; [| split; [| split]].
  - apply (proj1 (ensureValidToken_fallback_chain env_auth_refused s_valid
                    _ _ (surjective_pairing _))).
    reflexivity.
  - destruct (proj1 (proj2 (ensureValidToken_fallback_chain env_auth_refused s_expired
                              _ _ (surjective_pairing _))) eq_refl)
      as (new & L & _ & Cr & _ & _ & He & _).
    exists new. split; [exact L |]. split; [exact Cr |].
    split; [| reflexivity].
    apply (He (ZErr (mkZilligonError "Unknown API key" (JStr "INVALID_API_KEY")
                                     (JNum (Num 401)) JUndefined))).
    reflexivity.
  - apply (proj1 (proj2 (proj2 (ensureValidToken_fallback_chain
                                  (env_of [envelope token_payload]) s_fresh
                                  _ _ (surjective_pairing _)))));
      reflexivity.
  - assert (Hrun : refreshAccessToken env_auth_refused s_expired
                   = (Throw (ZErr (mkZilligonError "Refresh token expired"
                                     (JStr "TOKEN_EXPIRED") (JNum (Num 401)) JUndefined)),
                      snd (refreshAccessToken env_auth_refused s_expired)))
      by (vm_compute; reflexivity).
    apply (proj2 (proj2 (proj2 (ensureValidToken_fallback_chain
                                  env_auth_refused s_expired
                                  _ _ (surjective_pairing _))))
             eq_refl eq_refl _ _ Hrun).
Defined.


(** A token response without [expiresIn] is stored all the same, the
    expiry as [NaN]; such a token never passes the validity test. *)
Example authenticate_without_lifetime :
  authenticate env_no_lifetime s_fresh
  = (Ret tt,
     mkState (mkClient sample_config (JStr "at1") (JStr "rt1") (Some NaN))
             1010 (fetched (snd (authenticate env_no_lifetime s_fresh))) [] 1).
Proof. vm_compute. reflexivity. Qed.



Lemma request_timeout_and_timer_witness :
  (exists e s',
     request (env_of []) "GET" "/v1/agents/me" JUndefined true s_fresh
     = (Throw (ZErr e), s')
     /\ code e = JStr "TIMEOUT"
     /\ now s' = now s_fresh + 30000)
  /\ (exists e s',
        request (env_of []) "GET" "/v1/agents/me" JUndefined true s_long_timeout
        = (Throw (ZErr e), s')
        /\ code e = JStr "TIMEOUT"
        /\ now s' = now s_long_timeout + 1)
  /\ timers (snd (request env_not_found "GET" "/v1/posts/p1" JUndefined false s_fresh))
     = timers s_fresh
  /\ (exists cl, constructor key_config = Ret cl /\ timeout (config cl) = 30000)
  /\ fst (request env_body_stalls "GET" "/v1/agents/me" JUndefined true s_fresh)
     = NoReturn.
Proof.
  pose proof (request_timeout_and_timer (env_of []) "GET" "/v1/agents/me" JUndefined
                true s_fresh) as (Ht & _ & _).
  pose proof (request_timeout_and_timer (env_of []) "GET" "/v1/agents/me" JUndefined
                true s_long_timeout) as (Hl & _ & _).
  pose proof (request_timeout_and_timer env_not_found "GET" "/v1/posts/p1" JUndefined
                false s_fresh) as (_ & Hc & Hd & _).
  pose proof (request_timeout_and_timer env_body_stalls "GET" "/v1/agents/me" JUndefined
                true s_fresh) as (_ & _ & _ & Hs).
  split; [| split; [| split; [| split]]].
  - destruct (Ht json_headers s_fresh eq_refl eq_refl) as (e & s' & E & C & _ & N & _).
    exists e, s'. split; [exact E |]. split; [exact C |].
    rewrite N; [reflexivity | vm_compute; split; discriminate].
  - destruct (Hl json_headers s_long_timeout eq_refl eq_refl)
      as (e & s' & E & C & _ & _ & N).
    exists e, s'. split; [exact E |]. split; [exact C |].
    rewrite N; [reflexivity | right; vm_compute; reflexivity].
  - apply (Hc _ _ (surjective_pairing _)). constructor.
  - eexists. split; [reflexivity |]. apply (Hd key_config _ eq_refl). reflexivity.
  - apply (proj1 (proj2 (Hs json_headers s_fresh eq_refl)) 10%N
             (mkResponse true 200 BodyPending)).
    + reflexivity.
    + vm_compute. reflexivity.
    + reflexivity.
Defined.

(** C6, as stated, fails.  With a transport that ignores the abort signal
    and never settles, and with a response whose body never arrives, the
    request does not fail with [TIMEOUT]: it does not come back.  With a
    configured timeout of 2^31 ms the call is not aborted after the
    configured timeout: a response that takes 10 ms is cut off by the
    [TIMEOUT] thrown after 1 ms. *)
Lemma request_timeout_not_guaranteed :
  fst (request env_deaf "GET" "/v1/agents/me" JUndefined true s_fresh) = NoReturn
  /\ fst (request env_body_stalls "GET" "/v1/agents/me" JUndefined true s_fresh) = NoReturn
  /\ timeout (config (client s_long_timeout)) = 2147483648
  /\ fst (request (env_of [envelope token_payload]) "POST" "/v1/auth/token"
            JUndefined true s_long_timeout)
     = Throw TIMEOUT_error
  /\ now (snd (request (env_of [envelope token_payload]) "POST" "/v1/auth/token"
                 JUndefined true s_long_timeout))
     = now s_long_timeout + 1.
Proof. repeat split; vm_compute; reflexivity. Qed.



(** With a transport that answers at once, the run of the sample job
    whose status never becomes terminal asks for the status 150 times. *)
Example polls_until_the_ceiling :
  count_polls (fetched (snd (generateMediaAndWait (env_job completed_without_result)
                               enough_fuel (with_type "image" cat_input) s_fresh)))
  = 150%nat.
Proof. vm_compute. reflexivity. Qed.



(** * Further properties of the client *)

(** ** What a request sends and what it throws *)

Lemma classify_ZErr e : exists z, classify e = ZErr z.
Proof.
  destruct e as [z | name msg | v]; cbn; eauto.
  destruct (name =? "AbortError")%string; eauto.
Qed.

Lemma send_logged env method path url headers body s r s' :
  send env method path url headers body s = (r, s') ->
  fetched s' = mkRequest method path url headers (sent_body body) (next_timer s)
               :: fetched s
  /\ client s' = client s
  /\ (r = NoReturn -> hangs (reply env (List.length (fetched s))))
  /\ (forall e, r = Throw e -> exists z, e = ZErr z).
Proof.
  intro H. destruct (send_advance _ _ _ _ _ _ _ _ _ H) as (_ & _ & _ & _ & _ & R).
  revert H. rewrite send_eq. cbv zeta. unfold TIMEOUT_error, sent_body.
  destruct (reply env (List.length (fetched s)))
    as [|latency e0|latency resp| |latency e0|latency resp];
    [| destruct (Z.of_N latency <? deadline env s)
     | destruct (Z.of_N latency <? deadline env s) | | |];
    intro H; inversion H; subst r s'; clear H;
    (split; [reflexivity |]); (split; [reflexivity |]);
    (split; [exact R |]);
    try solve [intros x Hx; inversion Hx; subst; eauto using classify_ZErr].
  all: destruct (unwrap_envelope resp) as [v | e1 |]; cbn;
    intros x Hx; inversion Hx; subst; eauto using classify_ZErr.
Qed.


(** A request with [skipAuth] never consults [ensureValidToken]: whatever
    stands for it, the run is the same.  It makes one transport call, with
    the content type as its only header, leaves the client as it was, and
    throws nothing but a [ZilligonError].  It fails to come back only
    when that call hangs: the transport ignores the abort signal and
    never settles, or the body of the response never arrives. *)
Theorem request_skipAuth_single_call env ensure method path body s r s' :
  request_with env ensure method path body true s = (r, s') ->
  request env method path body true s = (r, s')
  /\ fetched s' = mkRequest method path (baseUrl (config (client s)) ++ path)
                    json_headers (sent_body body) (next_timer s) :: fetched s
  /\ client s' = client s
  /\ (r = NoReturn -> hangs (reply env (List.length (fetched s))))
  /\ (forall e, r = Throw e -> exists z, e = ZErr z).
Proof.
  intro H. split; [exact H |].
  change (request_with env ensure method path body true s)
    with (send env method path (baseUrl (config (client s)) ++ path)
            json_headers body s) in H.
  apply (send_logged _ _ _ _ _ _ _ _ _ H).
Qed.

Lemma request_skipAuth_single_call_witness :
  fetched (snd (request_with env_not_found (throw AbortError) "GET" "/v1/posts/p1"
                  JUndefined true s_fresh))
  = [mkRequest "GET" "/v1/posts/p1" "https://api.zilligon.com/v1/posts/p1"
       [("Content-Type", "application/json")] JUndefined 0]
  /\ client (snd (request_with env_not_found (throw AbortError) "GET" "/v1/posts/p1"
                    JUndefined true s_fresh)) = fresh_client
  /\ hangs (reply env_body_stalls 0).
Proof.
  destruct (request_skipAuth_single_call env_not_found (throw AbortError)
              "GET" "/v1/posts/p1" JUndefined s_fresh _ _ (surjective_pairing _))
    as (_ & L & C & _).
  destruct (request_skipAuth_single_call env_body_stalls (throw AbortError)
              "GET" "/v1/posts/p1" JUndefined s_fresh _ _ (surjective_pairing _))
    as (_ & _ & _ & R & _).
  split; [exact L | split; [exact C |]].
  apply R. reflexivity.
Defined.









(** ** Credentials *)


























(** A token acquired by [authenticate] with a numeric lifetime of [n]
    seconds passes the validity test exactly while the clock is more than
    60 s before the instant [n] seconds after the acquisition.  Until then
    [ensureValidToken] hands it out without a transport call; a token
    whose lifetime is 60 s or less is never handed out again. *)
Theorem acquired_token_validity_window env s response s1 n :
  request_skipAuth env "POST" "/v1/auth/token" (auth_body s) s = (Ret response, s1) ->
  truthy (opt_get response "accessToken") = true ->
  opt_get response "expiresIn" = JNum (Num n) ->
  now s1 + n * 1000 <> 0 ->
  exists s2,
    authenticate env s = (Ret tt, s2)
    /\ now s2 = now s1
    /\ (forall s3, client s3 = client s2 ->
          isValid s3 = (now s3 <? now s1 + n * 1000 - 60000))
    /\ (forall s3, client s3 = client s2 -> now s3 < now s1 + n * 1000 - 60000 ->
          ensureValidToken env s3 = (Ret (opt_get response "accessToken"), s3))
    /\ (n <= 60 -> forall s3, client s3 = client s2 -> now s1 <= now s3 ->
          isValid s3 = false).
Proof.
  intros E Ht Hn Hz.
  assert (Hp : get response "accessToken" = Ret (opt_get response "accessToken")).
  { destruct response; try reflexivity; discriminate. }
  rewrite authenticate_eq. unfold bind at 1. rewrite E, store_tokens_eq, Hp, Hn.
  eexists. split; [reflexivity |]. split; [reflexivity |].
  assert (Hv : forall s3,
            client s3 =
            mkClient (config (client s1)) (opt_get response "accessToken")
                     (opt_get response "refreshToken")
                     (Some (js_add (Num (now s1)) (js_mul (toNumber env (JNum (Num n)))
                                                          (Num 1000)))) ->
            isValid s3 = (now s3 <? now s1 + n * 1000 - 60000)).
  { intros s3 C. unfold isValid. rewrite C. cbn. rewrite Ht.
    apply Z.eqb_neq in Hz. rewrite Hz. reflexivity. }
  cbn [client]. split; [exact Hv |]. split.
  - intros s3 C Hlt. rewrite ensureValidToken_eq, (Hv s3 C).
    apply Z.ltb_lt in Hlt. rewrite Hlt, C. reflexivity.
  - intros Hle s3 C Hnow. rewrite (Hv s3 C). apply Z.ltb_ge. lia.
Qed.

Lemma acquired_token_validity_window_witness :
  exists s2,
    authenticate (env_of [envelope token_payload]) s_fresh = (Ret tt, s2)
    /\ isValid (mkState (client s2) 3541009 [] [] 0) = true
    /\ isValid (mkState (client s2) 3541010 [] [] 0) = false.
Proof.
  destruct (acquired_token_validity_window (env_of [envelope token_payload]) s_fresh
              token_payload
              (snd (request_skipAuth (env_of [envelope token_payload]) "POST"
                      "/v1/auth/token" (auth_body s_fresh) s_fresh))
              3600 eq_refl eq_refl eq_refl)
    as (s2 & E & _ & Hv & _).
  - vm_compute. discriminate.
  - exists s2. split; [exact E |].
    split; rewrite Hv by reflexivity; vm_compute; reflexivity.
Defined.

(** Whenever the test of [ensureValidToken] accepts the stored token,
    [isAuthenticated] answers true. *)
Theorem isValid_isAuthenticated s :
  isValid s = true -> isAuthenticated s = true.
Proof.
  unfold isValid, isAuthenticated. rewrite !Bool.andb_true_iff.
  intros [[Ht He] Hl]. split; [split; assumption |].
  apply js_lt_true in Hl. destruct Hl as (x & y & Hx & Hy & Hlt).
  destruct (expiry_num (tokenExpiresAt (client s))) as [|z]; [discriminate |].
  cbn in Hy. inversion Hx; inversion Hy; subst. cbn. apply Z.ltb_lt. lia.
Qed.

Lemma isValid_isAuthenticated_witness : isAuthenticated s_valid = true.
Proof. apply isValid_isAuthenticated. reflexivity. Defined.

(** ** Timing of the poller *)

Lemma poll_loop_min_wait env input job start fuel :
  forall s v s',
    poll_loop env fuel input job start s = (Ret v, s') ->
    now s + pollIntervalMs <= now s' \/ maxWaitMs <= now s - start.
Proof.
  induction fuel as [|fuel IH]; intros s v s'.
  - intro H. change (poll_loop env 0 input job start s) with (@NoReturn jsval, s) in H.
    discriminate.
  - rewrite poll_loop_S.
    destruct (Z.ltb_spec (now s - start) maxWaitMs) as [Hlt | Hge]; [| auto].
    destruct (getMediaJobStatus env _ _) as [r1 s2] eqn:E.
    destruct (poll_advance _ _ _ _ _ E) as (new1 & A1 & R1 & C1 & N1).
    destruct r1 as [status | e |]; [| discriminate | discriminate].
    destruct (get status "status") as [st | e |]; [| discriminate | discriminate].
    destruct (is_str st "completed" && truthy (opt_get status "result"));
      [intro H; inversion H; subst; auto |].
    destruct (is_str st "failed"); [intro H; inversion H; subst; auto |].
    intro H. left.
    destruct (poll_loop_bound _ _ _ _ _ _ _ _ H) as (new2 & (_ & N2 & _) & _).
    unfold pollIntervalMs in *. lia.
Qed.

(** [generateMediaAndWait] never returns a result sooner than one polling
    interval after it was called: the first status request comes after a
    sleep, even for a job that is complete when submitted. *)
Theorem generateMediaAndWait_min_wait env fuel input s v s' :
  generateMediaAndWait env fuel input s = (Ret v, s') ->
  now s + 2000 <= now s'.
Proof.
  rewrite generateMediaAndWait_eq.
  destruct (submitMediaJob env (job_input input) s) as [r1 s1] eqn:E.
  destruct (submitMediaJob_advance _ _ _ _ _ E) as (new1 & (_ & N1 & _) & _).
  destruct r1 as [job | e |]; [| discriminate | discriminate].
  destruct (get job "jobId"); [| discriminate | discriminate].
  intro H. destruct (poll_loop_min_wait _ _ _ _ _ _ _ _ H) as [Hw | Hc];
    unfold pollIntervalMs, maxWaitMs in *; lia.
Qed.

Lemma generateMediaAndWait_min_wait_witness :
  now s_fresh + 2000
  <= now (snd (generateMediaAndWait (env_job completed_status) enough_fuel
                 (with_type "image" cat_input) s_fresh)).
Proof.
  apply (generateMediaAndWait_min_wait (env_job completed_status) enough_fuel
           (with_type "image" cat_input) s_fresh
           (JObj [("success", JBool true); ("url", JStr "https://cdn.test/cat.png")])).
  vm_compute. reflexivity.
Defined.

(** ** Classification of errors *)

Lemma endsWith_true s suffix :
  endsWith s suffix = true <-> exists p, s = p ++ suffix.
Proof.
  induction s as [|a r IH]; cbn [endsWith]; rewrite Bool.orb_true_iff.
  - split.
    + intros [H | H]; [| discriminate]. apply String.eqb_eq in H. exists "". exact H.
    + intros ([|b p] & H); [| discriminate]. left. apply String.eqb_eq. exact H.
  - split.
    + intros [H | H].
      * apply String.eqb_eq in H. exists "". exact H.
      * apply IH in H. destruct H as (p & ->). exists (String a p). reflexivity.
    + intros ([|b p] & H).
      * left. apply String.eqb_eq. exact H.
      * right. apply IH. cbn in H. inversion H. exists p. reflexivity.
Qed.

Lemma is_num_true v z : is_num v z = true <-> v = JNum (Num z).
Proof.
  destruct v as [| | |[|x]| | |]; cbn; try (split; [discriminate | intro H; inversion H]).
  rewrite Z.eqb_eq. split; [intros -> | intro H; inversion H]; reflexivity.
Qed.

(** [isNotFoundError] on an error whose code is a string answers true
    exactly when the code ends with [_NOT_FOUND] or the status is 404; it
    recognises the four resource codes of [ErrorCodes] whatever the status
    is.  On an error whose code is not a string it throws a [TypeError]. *)
Theorem isNotFoundError_by_suffix_or_status e :
  (forall c, code e = JStr c ->
     (isNotFoundError e = Ret true <->
      (exists p, c = p ++ "_NOT_FOUND") \/ statusCode e = JNum (Num 404))
     /\ (isNotFoundError e = Ret true \/ isNotFoundError e = Ret false))
  /\ (forall c msg st d, In c ErrorCodes_Resources ->
        isNotFoundError (mkZilligonError msg (JStr c) st d) = Ret true)
  /\ ((forall c, code e <> JStr c) ->
      exists msg, isNotFoundError e = Throw (JsError "TypeError" msg)).
Proof.
  split; [| split].
  - intros c Hc. unfold isNotFoundError. rewrite Hc. split.
    + rewrite <- endsWith_true, <- is_num_true, <- Bool.orb_true_iff.
      split; [intro H; injection H; auto | intro H; rewrite H; reflexivity].
    + destruct (endsWith c "_NOT_FOUND" || is_num (statusCode e) 404); auto.
  - intros c msg st d Hin. cbn in Hin.
    destruct Hin as [<- | [<- | [<- | [<- | []]]]]; reflexivity.
  - intro Hn. unfold isNotFoundError.
    destruct (code e) eqn:E; eauto. exfalso. eapply Hn. reflexivity.
Qed.

Lemma isNotFoundError_by_suffix_or_status_witness :
  isNotFoundError (mkZilligonError "No such community" (JStr "COMMUNITY_NOT_FOUND")
                                   (JNum (Num 400)) JUndefined) = Ret true
  /\ exists msg,
       isNotFoundError (mkZilligonError "Bad" (JNum (Num 42)) (JNum (Num 404)) JUndefined)
       = Throw (JsError "TypeError" msg).
Proof.
  split.
  - apply (proj1 (isNotFoundError_by_suffix_or_status
                    (mkZilligonError "No such community" (JStr "COMMUNITY_NOT_FOUND")
                                     (JNum (Num 400)) JUndefined))
             "COMMUNITY_NOT_FOUND" eq_refl).
    left. exists "COMMUNITY". reflexivity.
  - apply (proj2 (proj2 (isNotFoundError_by_suffix_or_status
             (mkZilligonError "Bad" (JNum (Num 42)) (JNum (Num 404)) JUndefined)))).
    intros c H. discriminate H.
Defined.







(** [toJSON] keeps all of an error: building an error from the [message],
    [code], [statusCode] and [details] of the object gives the error back,
    and the object's [name] is [ZilligonError]. *)
Theorem toJSON_round_trip e :
  new_ZilligonError (opt_get (toJSON e) "message") (opt_get (toJSON e) "code")
                    (opt_get (toJSON e) "statusCode") (opt_get (toJSON e) "details")
  = e
  /\ opt_get (toJSON e) "name" = JStr "ZilligonError".
Proof. destruct e. split; reflexivity. Qed.

(** ** Paths of the resource methods *)

Lemma cleanHandle_plain h : String.prefix "@" h = false -> cleanHandle h = h.
Proof.
  destruct h as [|a r]; [reflexivity |].
  destruct a as [[] [] [] [] [] [] [] []]; try reflexivity.
  cbn. destruct r; discriminate.
Qed.

(** [getAgentByHandle] strips one leading [@] and no more: a handle
    written with it and the same handle written without it lead to the
    same request. *)
Theorem getAgentByHandle_strips_one_at env h :
  getAgentByHandle env ("@" ++ h)
  = request env "GET" ("/v1/agents/handle/" ++ h) JUndefined false
  /\ (String.prefix "@" h = false ->
      getAgentByHandle env h = getAgentByHandle env ("@" ++ h)).
Proof.
  split; [reflexivity |]. intro H. unfold getAgentByHandle.
  rewrite (cleanHandle_plain _ H). reflexivity.
Qed.

Lemma getAgentByHandle_strips_one_at_witness :
  getAgentByHandle env_not_found "bob" = getAgentByHandle env_not_found "@bob".
Proof.
  apply (proj2 (getAgentByHandle_strips_one_at env_not_found "bob")). reflexivity.
Defined.

Lemma occurrences_app c s1 s2 :
  occurrences c (s1 ++ s2) = (occurrences c s1 + occurrences c s2)%nat.
Proof.
  induction s1 as [|a r IH]; cbn; [reflexivity |]. rewrite IH. lia.
Qed.

Lemma string_forall_app P s1 s2 :
  string_forall P (s1 ++ s2) = string_forall P s1 && string_forall P s2.
Proof.
  induction s1 as [|a r IH]; cbn; [reflexivity |]. now rewrite IH, Bool.andb_assoc.
Qed.

Lemma string_forall_occurrences P c s :
  string_forall P s = true -> P c = false -> occurrences c s = 0%nat.
Proof.
  intros Hs Hc. induction s as [|a r IH]; cbn; [reflexivity |].
  cbn in Hs. apply Bool.andb_true_iff in Hs. destruct Hs as [Ha Hr].
  rewrite (IH Hr). destruct (Ascii.eqb_spec a c) as [-> | _]; [congruence | reflexivity].
Qed.

Lemma form_encode_byte_output a :
  string_forall form_output (form_encode_byte a) = true.
Proof.
  destruct a as [[] [] [] [] [] [] [] []]; vm_compute; reflexivity.
Qed.

Lemma form_encode_output s : string_forall form_output (form_encode s) = true.
Proof.
  induction s as [|a r IH]; cbn [form_encode]; [reflexivity |].
  now rewrite string_forall_app, form_encode_byte_output, IH.
Qed.

Lemma form_encode_free c s :
  form_output c = false -> occurrences c (form_encode s) = 0%nat.
Proof. apply string_forall_occurrences, form_encode_output. Qed.

Lemma append_empty_r s : s ++ "" = s.
Proof. induction s as [|a r IH]; cbn; [reflexivity | now rewrite IH]. Qed.

Lemma URLSearchParams_toString_cons k v params :
  URLSearchParams_toString ((k, v) :: params)
  = form_encode k ++ "=" ++ form_encode v
    ++ match params with
       | [] => ""
       | _ => "&" ++ URLSearchParams_toString params
       end.
Proof.
  destruct params as [|[k' v'] rest]; cbn [URLSearchParams_toString].
  - now rewrite append_empty_r.
  - reflexivity.
Qed.

Lemma URLSearchParams_toString_separators params :
  occurrences "&" (URLSearchParams_toString params) = Nat.pred (List.length params)
  /\ occurrences "=" (URLSearchParams_toString params) = List.length params
  /\ occurrences "?" (URLSearchParams_toString params) = 0%nat
  /\ occurrences "#" (URLSearchParams_toString params) = 0%nat
  /\ occurrences "/" (URLSearchParams_toString params) = 0%nat.
Proof.
  induction params as [|[k v] rest IH]; [repeat split |].
  destruct IH as (IH1 & IH2 & IH3 & IH4 & IH5).
  rewrite URLSearchParams_toString_cons, !occurrences_app.
  rewrite !(form_encode_free _ k), !(form_encode_free _ v) by reflexivity.
  destruct rest as [|p rest']; [cbn; repeat split |].
  rewrite !occurrences_app, IH1, IH2, IH3, IH4, IH5. cbn. repeat split; lia.
Qed.

Lemma URLSearchParams_toString_empty params :
  URLSearchParams_toString params = "" <-> params = [].
Proof.
  split; [| intros ->; reflexivity].
  destruct params as [|[k v] rest]; [reflexivity |]. intro H.
  pose proof (URLSearchParams_toString_separators ((k, v) :: rest)) as (_ & He & _).
  rewrite H in He. discriminate.
Qed.

(** The query string of [getGlobalFeed], [getPersonalizedFeed],
    [getCommunityFeed] and [getAgentPosts]: it is empty exactly when
    [limit], [cursor] and [contentType] are all missing or falsy (a limit
    of 0 included); otherwise it is [?] followed by one [name=value] pair
    per option that is set.  Whatever the values are, they add no [&],
    [=], [?], [#] or [/] of their own, so a value cannot pass for a further
    parameter or for a piece of the path. *)
Theorem feed_query_separators options :
  (feed_query options = "" <->
   truthy (opt_get options "limit") = false
   /\ truthy (opt_get options "cursor") = false
   /\ truthy (opt_get options "contentType") = false)
  /\ List.length (feed_params options)
     = ((if truthy (opt_get options "limit") then 1 else 0)
        + (if truthy (opt_get options "cursor") then 1 else 0)
        + (if truthy (opt_get options "contentType") then 1 else 0))%nat
  /\ (feed_query options <> "" ->
      exists q,
        feed_query options = "?" ++ q
        /\ occurrences "&" q = Nat.pred (List.length (feed_params options))
        /\ occurrences "=" q = List.length (feed_params options)
        /\ occurrences "?" q = 0%nat
        /\ occurrences "#" q = 0%nat
        /\ occurrences "/" q = 0%nat).
Proof.
  assert (Hq : feed_query options = "" <-> feed_params options = []).
  { unfold feed_query. rewrite <- URLSearchParams_toString_empty.
    destruct (String.eqb_spec (URLSearchParams_toString (feed_params options)) "")
      as [E | E]; [tauto |].
    split; [discriminate | intro H; contradiction]. }
  split; [| split].
  - rewrite Hq. unfold feed_params.
    destruct (truthy (opt_get options "limit")),
             (truthy (opt_get options "cursor")),
             (truthy (opt_get options "contentType")); cbn;
      split; try discriminate; try tauto; intros (? & ? & ?); discriminate.
  - unfold feed_params.
    destruct (truthy (opt_get options "limit")),
             (truthy (opt_get options "cursor")),
             (truthy (opt_get options "contentType")); reflexivity.
  - intro Hne. exists (URLSearchParams_toString (feed_params options)). split.
    + unfold feed_query in *.
      destruct (URLSearchParams_toString (feed_params options) =? "")%string;
        [contradiction | reflexivity].
    + apply URLSearchParams_toString_separators.
Qed.

Lemma feed_query_separators_witness :
  exists q,
    feed_query (JObj [("limit", JNum (Num 10)); ("cursor", JStr "a b&type=CODE#x")])
    = "?" ++ q
    /\ occurrences "&" q = 1%nat
    /\ occurrences "=" q = 2%nat.
Proof.
  destruct (proj2 (proj2 (feed_query_separators
              (JObj [("limit", JNum (Num 10)); ("cursor", JStr "a b&type=CODE#x")]))))
    as (q & E & A & B & _).
  - vm_compute. discriminate.
  - exists q. split; [exact E |]. split; [exact A | exact B].
Defined.

(** ** [createMediaPost] and [register] *)









(** ** The transport calls of a request and of a generation *)

Lemma ensureValidToken_calls env s r s1 :
  ensureValidToken env s = (r, s1) ->
  exists auths,
    fetched s1 = List.app auths (fetched s)
    /\ Forall is_auth_call auths
    /\ (List.length auths <= 2)%nat
    /\ (isValid s = true -> auths = []).
Proof.
  rewrite ensureValidToken_eq.
  assert (Hfall : forall s0 pre, fetched s0 = List.app pre (fetched s) ->
            Forall is_auth_call pre -> (List.length pre <= 1)%nat ->
            authenticate_and_return env s0 = (r, s1) ->
            exists auths,
              fetched s1 = List.app auths (fetched s)
              /\ Forall is_auth_call auths
              /\ (List.length auths <= 2)%nat
              /\ (false = true -> auths = [])).
  { intros s0 pre L F N H.
    destruct (authenticate_and_return_spec _ _ _ _ H) as ((q & (L2 & _) & P2) & _).
    exists (q :: pre). rewrite L2, L. cbn.
    split; [reflexivity |]. split; [| split; [lia | discriminate]].
    apply Forall_cons; [left; exact P2 | exact F]. }
  destruct (isValid s).
  - intro H; inversion H; subst. exists []. repeat split; auto.
  - destruct (truthy (refreshToken (client s)));
      [| apply (Hfall s []); [reflexivity | constructor | cbn; lia]].
    destruct (refreshAccessToken env s) as [r1 s0] eqn:E1.
    destruct (refreshAccessToken_spec _ _ _ _ E1) as [(q1 & (L1 & _) & P1) R1].
    assert (F1 : Forall is_auth_call [q1]) by auth_calls.
    destruct r1 as [[] | e1 |].
    + destruct (truthy (accessToken (client s0)));
        [| apply (Hfall s0 [q1]); auto].
      intro H; inversion H; subst. exists [q1].
      split; [exact L1 | split; [exact F1 | split; [cbn; lia | discriminate]]].
    + apply (Hfall s0 [q1]); auto.
    + intro H; inversion H; subst. exists [q1].
      split; [exact L1 | split; [exact F1 | split; [cbn; lia | discriminate]]].
Qed.

Lemma request_calls env method path body skipAuth s r s' :
  request env method path body skipAuth s = (r, s') ->
  exists auths,
    Forall is_auth_call auths
    /\ (List.length auths <= 2)%nat
    /\ (skipAuth = true \/ isValid s = true -> auths = [])
    /\ ((fetched s' = List.app auths (fetched s)
         /\ ((exists e, r = Throw e) \/ (r = NoReturn /\ hung env)))
        \/ exists q, fetched s' = q :: List.app auths (fetched s)
                     /\ req_method q = method /\ req_path q = path).
Proof.
  rewrite request_eq. unfold auth_headers. destruct skipAuth; cbn [negb].
  - cbn. intro H. destruct (send_logged _ _ _ _ _ _ _ _ _ H) as (L & _).
    exists []. split; [constructor |]. split; [cbn; lia |]. split; [reflexivity |].
    right. eexists. split; [exact L | split; reflexivity].
  - unfold bind at 1. destruct (ensureValidToken env s) as [r1 s1] eqn:E.
    destruct (ensureValidToken_calls _ _ _ _ E) as (auths & L1 & F & N & V).
    destruct (ensureValidToken_advance _ _ _ _ E) as (_ & _ & _ & R).
    intro H.
    exists auths. split; [exact F |]. split; [exact N |].
    split; [intros [Hk | Hv]; [discriminate | auto] |].
    destruct r1 as [tok | e |].
    + cbn in H. destruct (send_logged _ _ _ _ _ _ _ _ _ H) as (L & _).
      right. eexists. rewrite <- L1. split; [exact L | split; reflexivity].
    + inversion H; subst. left. split; [exact L1 | eauto].
    + inversion H; subst. left. split; [exact L1 | auto].
Qed.

(** A request makes at most three transport calls: at most two token
    exchanges, then at most one call of its own, with its method and path.
    With [skipAuth], or on a token that passes the validity test, it makes
    no token exchange.  It makes its own call unless it throws before, or
    does not come back from a token exchange that hangs. *)
Theorem request_call_budget env method path body skipAuth s r s' :
  request env method path body skipAuth s = (r, s') ->
  exists auths,
    Forall is_auth_call auths
    /\ (List.length auths <= 2)%nat
    /\ (skipAuth = true \/ isValid s = true -> auths = [])
    /\ ((fetched s' = List.app auths (fetched s)
         /\ ((exists e, r = Throw e) \/ (r = NoReturn /\ hung env)))
        \/ exists q, fetched s' = q :: List.app auths (fetched s)
                     /\ req_method q = method /\ req_path q = path).
Proof. apply request_calls. Qed.

Lemma request_call_budget_witness :
  List.length (fetched (snd (getMe env_not_found s_valid))) = 1%nat
  /\ (List.length (fetched (snd (getMe env_auth_refused s_expired))) <= 2)%nat
  /\ hung env_body_stalls.
Proof.
  destruct (request_call_budget env_not_found "GET" "/v1/agents/me" JUndefined false
              s_valid _ _ (surjective_pairing _)) as (a1 & _ & _ & V1 & C1).
  destruct (request_call_budget env_auth_refused "GET" "/v1/agents/me" JUndefined false
              s_expired _ _ (surjective_pairing _)) as (a2 & _ & N2 & _ & C2).
  destruct (request_call_budget env_body_stalls "GET" "/v1/agents/me" JUndefined false
              s_fresh _ _ (surjective_pairing _)) as (a3 & _ & _ & _ & C3).
  fold (getMe env_not_found) in C1. fold (getMe env_auth_refused) in C2.
  split; [| split].
  - rewrite (V1 (or_intror eq_refl)) in C1.
    destruct C1 as [[L _] | (q & L & _)]; rewrite L; [| reflexivity].
    exfalso. revert L. vm_compute. intro L'. discriminate L'.
  - destruct C2 as [[L _] | (q & L & Hm & _)].
    + rewrite L, length_app. cbn. lia.
    + exfalso. vm_compute in L. inversion L; subst q. discriminate Hm.
  - destruct C3 as [[_ [[e He] | [_ Hh]]] | (q & L & Hm & _)].
    + exfalso. revert He. vm_compute. intro He'. discriminate He'.
    + exact Hh.
    + exfalso. vm_compute in L. inversion L; subst q. discriminate Hm.
Defined.

Lemma own_or_auth_app method path l1 l2 :
  Forall (own_or_auth method path) l1 -> Forall (own_or_auth method path) l2 ->
  Forall (own_or_auth method path) (List.app l1 l2).
Proof. intros H1 H2. apply Forall_app. auto. Qed.

Lemma request_own_or_auth env method path body skipAuth s r s' :
  request env method path body skipAuth s = (r, s') ->
  exists new, fetched s' = List.app new (fetched s)
              /\ Forall (own_or_auth method path) new.
Proof.
  intro H. destruct (request_calls _ _ _ _ _ _ _ _ H) as (auths & F & _ & _ & C).
  assert (Fa : Forall (own_or_auth method path) auths).
  { eapply Forall_impl; [| exact F]. intros q Hq. left. exact Hq. }
  destruct C as [[L _] | (q & L & Hm & Hp)].
  - exists auths. auto.
  - exists (q :: auths). split; [exact L |].
    apply Forall_cons; [right; auto | exact Fa].
Qed.

Lemma poll_loop_calls env input job start fuel :
  forall s r s',
    poll_loop env fuel input job start s = (r, s') ->
    exists calls,
      fetched s' = List.app calls (fetched s)
      /\ Forall (own_or_auth "GET" ("/v1/media/status/" ++ toString (opt_get job "jobId")))
                calls.
Proof.
  induction fuel as [|fuel IH]; intros s r s'.
  - intro H. change (poll_loop env 0 input job start s) with (@NoReturn jsval, s) in H.
    inversion H; subst. exists []. split; [reflexivity | constructor].
  - rewrite poll_loop_S.
    destruct (now s - start <? maxWaitMs);
      [| intro H; inversion H; subst; exists []; split; [reflexivity | constructor]].
    destruct (getMediaJobStatus env _ _) as [r1 s2] eqn:E.
    unfold getMediaJobStatus in E.
    destruct (request_own_or_auth _ _ _ _ _ _ _ _ E) as (new1 & L1 & F1).
    cbn [sleep snd fetched] in L1.
    assert (Hstop : forall x : outcome jsval, (x, s2) = (r, s') ->
              exists calls,
                fetched s' = List.app calls (fetched s)
                /\ Forall (own_or_auth "GET"
                             ("/v1/media/status/" ++ toString (opt_get job "jobId")))
                          calls).
    { intros x H; inversion H; subst. exists new1. auto. }
    destruct r1 as [status | e |]; [| apply Hstop | apply Hstop].
    destruct (get status "status") as [st | e |]; [| apply Hstop | apply Hstop].
    destruct (is_str st "completed" && truthy (opt_get status "result"));
      [apply Hstop |].
    destruct (is_str st "failed"); [apply Hstop |].
    intro H. destruct (IH _ _ _ H) as (new2 & L2 & F2).
    exists (List.app new2 new1). rewrite L2, L1, app_assoc.
    split; [reflexivity | apply own_or_auth_app; assumption].
Qed.

(** Once the job is submitted, a generation calls the token endpoints and
    the status endpoint of the job id that the submission returned, and
    nothing else; a submission that returns no job id makes it ask for the
    status of [undefined]. *)
Theorem polls_address_the_submitted_job env fuel input s job s1 r s' :
  submitMediaJob env (job_input input) s = (Ret job, s1) ->
  generateMediaAndWait env fuel input s = (r, s') ->
  exists calls,
    fetched s' = List.app calls (fetched s1)
    /\ Forall (own_or_auth "GET" ("/v1/media/status/" ++ toString (opt_get job "jobId")))
              calls.
Proof.
  intros E. rewrite generateMediaAndWait_eq, E.
  destruct (get job "jobId");
    [apply poll_loop_calls | |];
    intro H; inversion H; subst; exists []; split; reflexivity || constructor.
Qed.

Lemma polls_address_the_submitted_job_witness :
  exists calls,
    fetched (snd (generateMediaAndWait env_job_without_id enough_fuel
                    (with_type "image" cat_input) s_fresh))
    = List.app calls (fetched (s_submitted env_job_without_id))
    /\ Forall (own_or_auth "GET" "/v1/media/status/undefined") calls.
Proof.
  apply (polls_address_the_submitted_job env_job_without_id enough_fuel
           (with_type "image" cat_input) s_fresh
           (JObj [("status", JStr "queued")]) (s_submitted env_job_without_id)
           (fst (generateMediaAndWait env_job_without_id enough_fuel
                   (with_type "image" cat_input) s_fresh))).
  - vm_compute. reflexivity.
  - apply surjective_pairing.
Defined.
